(** * pg-boss: migration store and manager

    A shallow embedding of [src/migrationStore.js] and [src/manager.js].
    JavaScript numbers are modelled by [Z] (whole seconds, whole
    milliseconds, integer versions); strings by [string]; plain objects with
    a fixed shape by records; thrown errors by an explicit [result] type;
    the manager object and the database behind it by explicit state
    passing. *)

From Stdlib Require Import ZArith List Lia Sorted Permutation.
From stdpp Require Import base tactics option list strings pretty gmap.

Set Warnings "-register-all".
Open Scope Z_scope.

(** ** JavaScript values and errors *)

Module JS.

(** Errors raised by the engine itself; their message text is the engine's. *)
Inductive engine_error :=
| NotAFunction (callee : string)
| ReadOfNull (property : string)
| ReadOfUndefined (property : string).

Inductive value :=
| VUndefined
| VNull
| VBool (b : bool)
| VNum (n : Z)
| VStr (s : string)
| VFunction (name : string)
| VArray (items : list value)
| VObject (props : list (string * value))
| VError (name message : string)
| VTypeError (why : engine_error).

(** [typeof v] *)
Definition typeof (v : value) : string :=
  match v with
  | VUndefined => "undefined"
  | VNull => "object"
  | VBool _ => "boolean"
  | VNum _ => "number"
  | VStr _ => "string"
  | VFunction _ => "function"
  | VArray _ | VObject _ | VError _ _ | VTypeError _ => "object"
  end.

(** [Array.isArray(v)] *)
Definition isArray (v : value) : bool :=
  match v with VArray _ => true | _ => false end.

(** ToBoolean *)
Definition truthy (v : value) : bool :=
  match v with
  | VUndefined | VNull => false
  | VBool b => b
  | VNum n => negb (n =? 0)
  | VStr s => negb (String.eqb s "")
  | _ => true
  end.

(** [v[p]] for a property name no prototype supplies: an own property of
    an object literal, [undefined] on every other value (reading it off
    [null] or [undefined] throws, which the callers here never do). *)
Definition get_property (v : value) (p : string) : value :=
  match v with
  | VObject props =>
      match List.find (fun e => String.eqb e.1 p) props with
      | Some e => e.2
      | None => VUndefined
      end
  | _ => VUndefined
  end.

(** An integer-valued number interpolated in a template literal prints as
    its decimal digits. *)
Definition number_to_string (n : Z) : string := pretty n.

(** The outcome of evaluating an expression or calling a function: a value,
    or a thrown one. *)
Inductive result (A : Type) :=
| Ok (a : A)
| Throw (e : value).
Arguments Ok {A} a.
Arguments Throw {A} e.

#[export] Instance result_ret : MRet result := @Ok.
#[export] Instance result_bind : MBind result := fun A B k r =>
  match r with Ok a => k a | Throw e => Throw e end.

(** [new Error(message)] *)
Definition Error (message : string) : value := VError "Error" message.

(** [assert(cond, message)] of node:assert *)
Definition assert (cond : bool) (message : string) : result unit :=
  if cond then Ok tt else Throw (VError "AssertionError" message).

End JS.

Import JS.

(** ** plans.js

    [plans.assertMigration], [plans.setVersion] and [plans.locked] live in
    plans.js, which is not among the sources at hand.  Each call is
    represented by a constructor that records the arguments it was given;
    a statement taken from a migration's own array is [Sql]. *)

Module Plans.

Inductive command :=
| Sql (text : string)
| assertMigration (schema : string) (version : Z)
| setVersion (schema : string) (version : Z).

Inductive plan :=
| locked (schema : string) (commands : list command).

End Plans.

(** ** migrationStore.js *)

Module MigrationStore.
Import Plans.

Record migration := {
  release : string;
  version : Z;
  previous : Z;
  install : list command;
  uninstall : option (list command)
}.

(** [flatten (schema, commands, version)]: [unshift] the assertion, [push]
    the version bump, wrap in [plans.locked].  (The source does this in
    place on [commands]; only the returned plan is modelled.) *)
Definition flatten (schema : string) (commands : list command) (version : Z) : plan :=
  locked schema (assertMigration schema version :: commands ++ [setVersion schema version]).

Definition not_found (version : Z) : string :=
  "Version " +:+ number_to_string version +:+ " not found.".

(** Elements of the array literals in [getAll]: a template literal, or a
    template literal applied as a tag to the template literal that follows
    it with no comma in between. *)
Inductive element :=
| Template (s : string)
| TaggedTemplate (tag : element) (quasi : string).

Fixpoint eval_element (e : element) : result string :=
  match e with
  | Template s => Ok s
  | TaggedTemplate tag _ =>
      f ← eval_element tag;
      Throw (VTypeError (NotAFunction f))
  end.

(** An array literal evaluates its elements left to right. *)
Fixpoint eval_array (es : list element) : result (list command) :=
  match es with
  | [] => Ok []
  | e :: es' =>
      s ← eval_element e;
      rest ← eval_array es';
      Ok (Sql s :: rest)
  end.

Record migration_literal := {
  lit_release : string;
  lit_version : Z;
  lit_previous : Z;
  lit_install : list element;
  lit_uninstall : list element
}.

Definition eval_migration (l : migration_literal) : result migration :=
  i ← eval_array (lit_install l);
  u ← eval_array (lit_uninstall l);
  Ok {| release := lit_release l; version := lit_version l;
        previous := lit_previous l; install := i; uninstall := Some u |}.

Fixpoint eval_migrations (ls : list migration_literal) : result (list migration) :=
  match ls with
  | [] => Ok []
  | l :: ls' =>
      m ← eval_migration l;
      rest ← eval_migrations ls';
      Ok (m :: rest)
  end.

(* release 10.0.0 *)
Definition migration_21 (schema : string) : migration_literal :=
  {| lit_release := "10.0.0";
     lit_version := 21;
     lit_previous := 20;
     lit_install := [
    Template ("DROP INDEX " +:+ schema +:+ ".job_singletonKey");
    Template ("DROP INDEX " +:+ schema +:+ ".job_singleton_queue");
    Template ("DROP INDEX " +:+ schema +:+ ".job_singletonOn");
    Template ("DROP INDEX " +:+ schema +:+ ".job_singletonKeyOn");
    Template ("DROP INDEX " +:+ schema +:+ ".job_fetch");
    Template ("ALTER TABLE " +:+ schema +:+ ".job ADD COLUMN deadletter text");
    Template ("ALTER TABLE " +:+ schema +:+ ".job ADD COLUMN policy text");
    Template ("ALTER TABLE " +:+ schema +:+ ".job DROP COLUMN on_complete");
    Template ("ALTER TABLE " +:+ schema +:+ ".job ALTER COLUMN state TYPE text");
    Template ("ALTER TABLE " +:+ schema +:+ ".job ALTER COLUMN state DROP DEFAULT");
    Template ("ALTER TABLE " +:+ schema +:+ ".archive ALTER COLUMN state TYPE text");
    Template ("DROP TABLE IF EXISTS " +:+ schema +:+ ".archive_backup");
    Template ("ALTER TABLE " +:+ schema +:+ ".archive RENAME to archive_backup");
    Template ("ALTER INDEX " +:+ schema +:+ ".archive_archivedon_idx RENAME to archive_backup_archivedon_idx");
    Template ("DROP TYPE " +:+ schema +:+ ".job_state");
    Template ("CREATE TYPE " +:+ schema +:+ ".job_state AS ENUM ('created','retry','active','completed','cancelled','failed')");
    Template ("ALTER TABLE " +:+ schema +:+ ".job ALTER COLUMN state TYPE " +:+ schema +:+ ".job_state USING state::" +:+ schema +:+ ".job_state");
    Template ("ALTER TABLE " +:+ schema +:+ ".job ALTER COLUMN state SET DEFAULT 'created'::" +:+ schema +:+ ".job_state");
    Template ("DELETE FROM " +:+ schema +:+ ".job WHERE name LIKE '__pgboss__%'");
    Template ("ALTER TABLE " +:+ schema +:+ ".job RENAME TO job_default");
    Template ("ALTER TABLE " +:+ schema +:+ ".job_default DROP CONSTRAINT job_pkey");
    Template ("CREATE TABLE " +:+ schema +:+ ".job (
          id uuid not null default gen_random_uuid(),
          name text not null,
          priority integer not null default(0),
          data jsonb,
          state " +:+ schema +:+ ".job_state not null default('created'),
          retryLimit integer not null default(0),
          retryCount integer not null default(0),
          retryDelay integer not null default(0),
          retryBackoff boolean not null default false,
          startAfter timestamp with time zone not null default now(),
          startedOn timestamp with time zone,
          singletonKey text,
          singletonOn timestamp without time zone,
          expireIn interval not null default interval '15 minutes',
          createdOn timestamp with time zone not null default now(),
          completedOn timestamp with time zone,
          keepUntil timestamp with time zone NOT NULL default now() + interval '14 days',
          output jsonb,
          deadletter text,
          policy text,
          CONSTRAINT job_pkey PRIMARY KEY (name, id)
        ) PARTITION BY RANGE (name)");
    Template ("ALTER TABLE " +:+ schema +:+ ".job ATTACH PARTITION " +:+ schema +:+ ".job_default DEFAULT");
    Template ("CREATE TABLE " +:+ schema +:+ ".archive (LIKE " +:+ schema +:+ ".job)");
    Template ("ALTER TABLE " +:+ schema +:+ ".archive ADD CONSTRAINT archive_pkey PRIMARY KEY (name, id)");
    Template ("ALTER TABLE " +:+ schema +:+ ".archive ADD archivedOn timestamptz NOT NULL DEFAULT now()");
    Template ("CREATE INDEX archive_archivedon_idx ON " +:+ schema +:+ ".archive(archivedon)");
    Template ("CREATE INDEX archive_name_idx ON " +:+ schema +:+ ".archive(name)");
    Template ("CREATE INDEX job_fetch ON " +:+ schema +:+ ".job (name text_pattern_ops, startAfter) INCLUDE (priority, createdOn) WHERE state < 'active'");
    TaggedTemplate (Template ("CREATE INDEX job_name ON " +:+ schema +:+ ".job (name text_pattern_ops)"))
      ("CREATE UNIQUE INDEX job_policy_short ON " +:+ schema +:+ ".job (name) WHERE state = 'created' AND policy = 'short'");
    Template ("CREATE UNIQUE INDEX job_policy_singleton ON " +:+ schema +:+ ".job (name) WHERE state = 'active' AND policy = 'singleton'");
    Template ("CREATE UNIQUE INDEX job_policy_stately ON " +:+ schema +:+ ".job (name, state) WHERE state <= 'active' AND policy = 'stately'");
    Template ("CREATE UNIQUE INDEX job_throttle_key ON " +:+ schema +:+ ".job (name, singletonKey) WHERE state <= 'completed' AND singletonOn IS NULL");
    Template ("CREATE UNIQUE INDEX job_throttle_on ON " +:+ schema +:+ ".job (name, singletonOn, COALESCE(singletonKey, '')) WHERE state <= 'completed' AND singletonOn IS NOT NULL");
    Template ("ALTER TABLE " +:+ schema +:+ ".version ADD COLUMN monitored_on timestamp with time zone");
    Template ("CREATE TABLE " +:+ schema +:+ ".queue (
          name text primary key,
          policy text,
          retry_limit int,
          retry_delay int,
          retry_backoff bool,
          expire_seconds int,
          retention_minutes int,
          dead_letter text,
          created_on timestamp with time zone not null default now()
        )")
     ];
     lit_uninstall := [
    Template ("DROP INDEX " +:+ schema +:+ ".job_policy_stately");
    Template ("DROP INDEX " +:+ schema +:+ ".job_policy_short");
    Template ("DROP INDEX " +:+ schema +:+ ".job_policy_singleton");
    Template ("DROP INDEX " +:+ schema +:+ ".job_throttle_on");
    Template ("DROP INDEX " +:+ schema +:+ ".job_throttle_key");
    Template ("DROP INDEX " +:+ schema +:+ ".job_fetch");
    Template ("DROP INDEX " +:+ schema +:+ ".job_name");
    Template ("ALTER TABLE " +:+ schema +:+ ".job DETACH PARTITION " +:+ schema +:+ ".job_default");
    Template ("DROP TABLE " +:+ schema +:+ ".job");
    Template ("ALTER TABLE " +:+ schema +:+ ".job_default RENAME TO job");
    Template ("DROP TABLE IF EXISTS " +:+ schema +:+ ".archive_backup");
    Template ("DROP INDEX " +:+ schema +:+ ".archive_archivedon_idx");
    Template ("DROP INDEX " +:+ schema +:+ ".archive_name_idx");
    Template ("ALTER TABLE " +:+ schema +:+ ".job DROP COLUMN deadletter");
    Template ("ALTER TABLE " +:+ schema +:+ ".job DROP COLUMN policy");
    Template ("ALTER TABLE " +:+ schema +:+ ".job ALTER COLUMN state TYPE text");
    Template ("ALTER TABLE " +:+ schema +:+ ".job ALTER COLUMN state DROP DEFAULT");
    Template ("ALTER TABLE " +:+ schema +:+ ".archive ALTER COLUMN state TYPE text");
    Template ("DROP TYPE " +:+ schema +:+ ".job_state");
    Template ("CREATE TYPE " +:+ schema +:+ ".job_state AS ENUM ('created','retry','active','completed','expired','cancelled','failed')");
    Template ("ALTER TABLE " +:+ schema +:+ ".job ALTER COLUMN state TYPE " +:+ schema +:+ ".job_state USING state::" +:+ schema +:+ ".job_state");
    Template ("ALTER TABLE " +:+ schema +:+ ".job ALTER COLUMN state SET DEFAULT 'created'::" +:+ schema +:+ ".job_state");
    Template ("ALTER TABLE " +:+ schema +:+ ".job ADD COLUMN on_complete bool NOT NULL DEFAULT false");
    Template ("ALTER TABLE " +:+ schema +:+ ".archive ALTER COLUMN state TYPE " +:+ schema +:+ ".job_state USING state::" +:+ schema +:+ ".job_state");
    Template ("ALTER TABLE " +:+ schema +:+ ".archive DROP COLUMN policy");
    Template ("ALTER TABLE " +:+ schema +:+ ".archive DROP CONSTRAINT archive_pkey");
    Template ("CREATE INDEX job_fetch ON " +:+ schema +:+ ".job (name text_pattern_ops, startAfter) WHERE state < 'active'");
    Template ("CREATE UNIQUE INDEX job_singletonOn ON " +:+ schema +:+ ".job (name, singletonOn) WHERE state < 'expired' AND singletonKey IS NULL");
    Template ("CREATE UNIQUE INDEX job_singletonKeyOn ON " +:+ schema +:+ ".job (name, singletonOn, singletonKey) WHERE state < 'expired'");
    Template ("CREATE UNIQUE INDEX job_singletonKey ON " +:+ schema +:+ ".job (name, singletonKey) WHERE state < 'completed' AND singletonOn IS NULL AND NOT singletonKey LIKE '\_\_pgboss\_\_singleton\_queue%'");
    Template ("CREATE UNIQUE INDEX job_singleton_queue ON " +:+ schema +:+ ".job (name, singletonKey) WHERE state < 'active' AND singletonOn IS NULL AND singletonKey LIKE '\_\_pgboss\_\_singleton\_queue%'");
    Template ("DROP TABLE " +:+ schema +:+ ".queue");
    Template ("ALTER TABLE " +:+ schema +:+ ".version DROP COLUMN monitored_on")
     ] |}.

(* release 7.4.0 *)
Definition migration_20 (schema : string) : migration_literal :=
  {| lit_release := "7.4.0";
     lit_version := 20;
     lit_previous := 19;
     lit_install := [
    Template ("DROP INDEX " +:+ schema +:+ ".job_singletonKey");
    Template ("DROP INDEX " +:+ schema +:+ ".job_singleton_queue");
    Template ("CREATE UNIQUE INDEX job_singletonKey ON " +:+ schema +:+ ".job (name, singletonKey) WHERE state < 'completed' AND singletonOn IS NULL AND NOT singletonKey LIKE '\_\_pgboss\_\_singleton\_queue%'");
    Template ("CREATE UNIQUE INDEX job_singleton_queue ON " +:+ schema +:+ ".job (name, singletonKey) WHERE state < 'active' AND singletonOn IS NULL AND singletonKey LIKE '\_\_pgboss\_\_singleton\_queue%'")
     ];
     lit_uninstall := [
    Template ("DROP INDEX " +:+ schema +:+ ".job_singletonKey");
    Template ("DROP INDEX " +:+ schema +:+ ".job_singleton_queue");
    Template ("CREATE UNIQUE INDEX job_singletonKey ON " +:+ schema +:+ ".job (name, singletonKey) WHERE state < 'completed' AND singletonOn IS NULL AND NOT singletonKey = '__pgboss__singleton_queue'");
    Template ("CREATE UNIQUE INDEX job_singleton_queue ON " +:+ schema +:+ ".job (name, singletonKey) WHERE state < 'active' AND singletonOn IS NULL AND singletonKey = '__pgboss__singleton_queue'")
     ] |}.

(* release 7.0.0 *)
Definition migration_19 (schema : string) : migration_literal :=
  {| lit_release := "7.0.0";
     lit_version := 19;
     lit_previous := 18;
     lit_install := [
    Template ("CREATE TABLE " +:+ schema +:+ ".subscription (
          event text not null,
          name text not null,
          created_on timestamp with time zone not null default now(),
          updated_on timestamp with time zone not null default now(),
          PRIMARY KEY(event, name)
        )")
     ];
     lit_uninstall := [
    Template ("DROP TABLE " +:+ schema +:+ ".subscription")
     ] |}.

(** [getAll (schema)] *)
Definition getAll_literal (schema : string) : list migration_literal :=
  [migration_21 schema; migration_20 schema; migration_19 schema].

Definition getAll (schema : string) : result (list migration) :=
  eval_migrations (getAll_literal schema).

(** [migrations = migrations || getAll(schema)]: an array, even an empty
    one, is truthy. *)
Definition migrations_or_getAll (schema : string) (migrations : option (list migration))
  : result (list migration) :=
  match migrations with
  | Some ms => Ok ms
  | None => getAll schema
  end.

(** [rollback (schema, version, migrations)] *)
Definition rollback (schema : string) (version : Z) (migrations : option (list migration))
  : result plan :=
  migrations ← migrations_or_getAll schema migrations;
  match List.find (fun i => MigrationStore.version i =? version) migrations with
  | None => Throw (VError "AssertionError" (not_found version))
  | Some result =>
      Ok (flatten schema (default [] (uninstall result)) (previous result))
  end.

(** [next (schema, version, migrations)] *)
Definition next (schema : string) (version : Z) (migrations : option (list migration))
  : result plan :=
  migrations ← migrations_or_getAll schema migrations;
  match List.find (fun i => previous i =? version) migrations with
  | None => Throw (VError "AssertionError" (not_found version))
  | Some result =>
      Ok (flatten schema (install result) (MigrationStore.version result))
  end.

(** [.sort((a, b) => a.version - b.version)]: ascending by version, and
    stable (entries of equal version keep their relative order). *)
Fixpoint insert_by_version (m : migration) (l : list migration) : list migration :=
  match l with
  | [] => [m]
  | x :: l' =>
      if version m <=? version x then m :: l
      else x :: insert_by_version m l'
  end.

Fixpoint sort_by_version (l : list migration) : list migration :=
  match l with
  | [] => []
  | m :: l' => insert_by_version m (sort_by_version l')
  end.

(** The accumulator of the [reduce] in [migrate]. *)
Record acc := { acc_install : list command; acc_version : Z }.

Definition reduce_step (a : acc) (i : migration) : acc :=
  {| acc_install := acc_install a ++ install i; acc_version := version i |}.

Record config := { schema : string }.

(** [migrate (value, version, migrations)]: [value] is the schema name or a
    configuration object carrying it. *)
Definition migrate (value : string + config) (version : Z)
    (migrations : option (list migration)) : result plan :=
  let schema := match value with inl s => s | inr c => schema c end in
  migrations ← migrations_or_getAll schema migrations;
  let result :=
    fold_left reduce_step
      (sort_by_version (List.filter (fun i => previous i >=? version) migrations))
      {| acc_install := []; acc_version := version |} in
  _ ← assert (0 <? Z.of_nat (length (acc_install result))) (not_found version);
  Ok (flatten schema (acc_install result) (acc_version result)).

End MigrationStore.

(** ** manager.js *)

(** A JavaScript [Map]: entries in insertion order, one per key. *)
Module JSMap.
Section JSMap.
Context {V : Type}.

Definition t : Type := list (string * V).

Definition has (m : t) (k : string) : bool :=
  existsb (fun e => String.eqb e.1 k) m.

Definition get (m : t) (k : string) : option V :=
  snd <$> List.find (fun e => String.eqb e.1 k) m.

Fixpoint set (m : t) (k : string) (v : V) : t :=
  match m with
  | [] => [(k, v)]
  | e :: m' => if String.eqb e.1 k then (k, v) :: m' else e :: set m' k v
  end.

Definition delete (m : t) (k : string) : t :=
  List.filter (fun e => negb (String.eqb e.1 k)) m.

Definition values (m : t) : list V := map snd m.

Definition keys (m : t) : list string := map fst m.

(** A method call on the object held under [k], which changes it in place. *)
Definition mutate (m : t) (k : string) (f : V -> V) : t :=
  map (fun e => if String.eqb e.1 k then (e.1, f e.2) else e) m.

End JSMap.
Arguments t V : clear implicits.
End JSMap.

Module Manager.

(** *** Rows and statements

    plans.js is not among the sources at hand: each statement builder the
    manager calls is a constructor recording its arguments, indexed by the
    shape of the rows the statement returns. *)

Record job := {
  id : string;
  name : string;
  data : value;
  expireInSeconds : Z
}.

(** A row of the queue table: [name], [table], and the other columns,
    kept in [metadata] as an object. *)
Record queue := {
  queue_name : string;
  table : string;
  metadata : value
}.

(** *** The queue cache, a plain object

    [this.queues] is an object literal filled by assignment, so reading
    [this.queues[name]] walks the prototype chain.  The map holds the own
    properties; the key [__proto__] stands for the prototype, which an
    assignment to [__proto__] replaces by the row assigned. *)

(** The names [Object.prototype] defines. *)
Definition Object_prototype : list string :=
  [ "constructor"; "__defineGetter__"; "__defineSetter__"; "hasOwnProperty";
    "__lookupGetter__"; "__lookupSetter__"; "isPrototypeOf";
    "propertyIsEnumerable"; "toString"; "valueOf"; "__proto__"; "toLocaleString" ].

(** [Object.prototype[p]] read on an object whose prototype it is: the
    accessor [__proto__] returns [Object.prototype] itself, the other names
    are functions ([constructor] is [Object]). *)
Definition Object_prototype_get (p : string) : value :=
  if String.eqb p "__proto__" then VObject []
  else if String.eqb p "constructor" then VFunction "Object"
  else if bool_decide (p ∈ Object_prototype) then VFunction p
  else VUndefined.

(** [row[p]] for a column of the row itself. *)
Definition row_get (q : queue) (p : string) : option value :=
  if String.eqb p "name" then Some (VStr (queue_name q))
  else if String.eqb p "table" then Some (VStr (table q))
  else
    match metadata q with
    | VObject props => snd <$> List.find (fun e => String.eqb e.1 p) props
    | _ => None
    end.

(** What a read of the cache yields: a row, or a value found further up
    the prototype chain. *)
Inductive cached :=
| Row (q : queue)
| Other (v : value).

Definition cached_truthy (c : cached) : bool :=
  match c with Row _ => true | Other v => truthy v end.

(** [this.queues[name]] *)
Definition cache_get (cache : gmap string queue) (name : string) : cached :=
  match cache !! name with
  | Some q => Row q
  | None =>
      match cache !! "__proto__" with
      | Some row =>
          match row_get row name with
          | Some v => Other v
          | None => Other (Object_prototype_get name)
          end
      | None => Other (Object_prototype_get name)
      end
  end.

(** [const { table } = queue] *)
Definition table_of (c : cached) : value :=
  match c with
  | Row q => VStr (table q)
  | Other v => get_property v "table"
  end.

Record inserted := { inserted_id : string }.

Record counted := { count : Z }.

Record fetchNextJobArgs := {
  arg_batchSize : option Z;
  arg_includeMetadata : option bool;
  arg_priority : option bool;
  arg_schema : string;
  arg_table : value;
  arg_name : string;
  arg_limit : option Z
}.

Module plans.
Inductive sql : Type -> Type :=
| insertJob (schema : string) (table : value) : sql inserted
| fetchNextJob (args : fetchNextJobArgs) : sql job
| completeJobs (schema : string) (table : value) : sql counted
| failJobsById (schema : string) (q : cached) : sql counted
| getQueues (schema : string) (names : option (list string)) : sql queue.
End plans.
Abbreviation sql := plans.sql.

(** *** Promises

    A promise is described by when it settles, in milliseconds after the
    race it takes part in begins, and how; [None] never settles. *)

Inductive settlement :=
| Fulfilled (v : value)
| Rejected (reason : value).

Definition promise : Type := option (Z * settlement).

(** A timer promise: it always settles. *)
Definition timer : Type := (Z * settlement)%type.

(** Modelled from the spec: [delay (ms, error)] of tools.js, which is not
    among the sources: the timer the handler is raced against; once [ms]
    milliseconds have passed it rejects with [new Error(error)]. *)
Definition delay (ms : Z) (error : string) : timer :=
  (ms, Rejected (Error error)).

(** [Promise.race([promise, reject])] with [reject] a timer: whichever
    settles first; the first in the array when both have settled. *)
Definition Promise_race (p : promise) (reject : timer) : Z * settlement :=
  match p with
  | Some (t, s) => if t <=? reject.1 then (t, s) else reject
  | None => reject
  end.

(** [resolveWithinSeconds (promise, seconds)], with the time spent awaiting. *)
Definition resolveWithinSeconds (p : promise) (seconds : Z) : Z * result value :=
  let timeout := Z.max 1 seconds * 1000 in
  let reject :=
    delay timeout ("handler execution exceeded " +:+ number_to_string timeout +:+ "ms") in
  match Promise_race p reject with
  | (t, Fulfilled v) => (t, Ok v)
  | (t, Rejected e) => (t, Throw e)
  end.

(** A call of the user's handler: it throws, or returns a promise. *)
Inductive invocation :=
| Throws (e : value)
| Returns (p : promise).

Definition handler : Type := list job -> invocation.

(** *** Workers (worker.js is not among the sources)

    The fields are those manager.js reads.  The closures [fetch], [onFetch]
    and [onError] handed to the constructor are determined by [id], [name],
    [options] and the handler, which is what a worker keeps here. *)

Record workOptions := {
  work_pollingInterval : option Z;
  work_batchSize : option Z;
  work_includeMetadata : option bool;
  work_priority : option bool
}.

Record worker := {
  worker_id : string;
  worker_name : string;
  worker_options : workOptions;
  interval : Z;
  callback : handler;
  state : string;
  jobs : list job;
  createdOn : value;
  lastFetchedOn : value;
  lastJobStartedOn : value;
  lastJobEndedOn : value;
  lastError : value;
  lastErrorOn : value;
  stopping : bool;
  worker_stopped : bool
}.

(** The constructor and the methods of [Worker] that manager.js calls. *)
Class WorkerClass := {
  Worker_new : string -> string -> workOptions -> Z -> handler -> worker;
  Worker_start : worker -> worker;
  Worker_stop : worker -> worker;
  Worker_notify : worker -> worker
}.

(** One element of the array [getWipData] returns. *)
Record wip := {
  wip_id : string;
  wip_name : string;
  wip_options : workOptions;
  wip_state : string;
  wip_count : Z;
  wip_createdOn : value;
  wip_lastFetchedOn : value;
  wip_lastJobStartedOn : value;
  wip_lastJobEndedOn : value;
  wip_lastError : value;
  wip_lastErrorOn : value
}.

(** What the manager emits. *)
Inductive event :=
| error_event (error : value) (queue worker : option string)
| wip_event (data : list wip).

Definition event_name (e : event) : string :=
  match e with
  | error_event _ _ _ => "error"
  | wip_event _ => "wip"
  end.

(** A listener registered with [on], as [emit] sees it: called with the
    event, it returns or throws. *)
Definition listener : Type := event -> result unit.

Record config := {
  schema : string;
  pollingInterval : Z;
  __test__throw_worker : bool
}.

(** [{ jobs, requested, affected }] *)
Record commandResponse := {
  response_jobs : list value;
  requested : Z;
  affected : Z
}.

(** serialize-error's [serializeError], imported as [stringify]. *)
Class Serializer := { stringify : value -> value }.

(** [QUEUES] of timekeeper.js, as [INTERNAL_QUEUES[name]] reads it: whether
    the property, own or inherited, is truthy. *)
Class Timekeeper := { INTERNAL_QUEUES : string -> bool }.

(** node:crypto's [randomUUID], by how many were drawn before. *)
Class Crypto := { randomUUID_nth : nat -> string }.

Section Manager.
Context {W : Type}.

(** [db.executeSql (sql, values)] against the database [W]: the rows, or a
    thrown error, and the database afterwards. *)
Definition executor : Type :=
  forall R : Type, sql R -> option (list value) -> W -> result (list R) * W.

Record sendOptions := {
  opt_id : value;
  opt_db : option executor;
  priority : value;
  startAfter : value;
  singletonKey : value;
  singletonSeconds : option Z;
  singletonNextSlot : bool;
  expireIn : value;
  expireInDefault : value;
  keepUntil : value;
  keepUntilDefault : value;
  retryLimit : value;
  retryLimitDefault : value;
  retryDelay : value;
  retryDelayDefault : value;
  retryBackoff : value;
  retryBackoffDefault : value
}.

(** [{}] *)
Definition no_options : sendOptions :=
  {| opt_id := VUndefined; opt_db := None; priority := VUndefined;
     startAfter := VUndefined; singletonKey := VUndefined;
     singletonSeconds := None; singletonNextSlot := false;
     expireIn := VUndefined; expireInDefault := VUndefined;
     keepUntil := VUndefined; keepUntilDefault := VUndefined;
     retryLimit := VUndefined; retryLimitDefault := VUndefined;
     retryDelay := VUndefined; retryDelayDefault := VUndefined;
     retryBackoff := VUndefined; retryBackoffDefault := VUndefined |}.

Definition with_singleton (o : sendOptions) (seconds : option Z) (nextSlot : bool)
    (key : value) : sendOptions :=
  {| opt_id := opt_id o; opt_db := opt_db o; priority := priority o;
     startAfter := startAfter o; singletonKey := key;
     singletonSeconds := seconds; singletonNextSlot := nextSlot;
     expireIn := expireIn o; expireInDefault := expireInDefault o;
     keepUntil := keepUntil o; keepUntilDefault := keepUntilDefault o;
     retryLimit := retryLimit o; retryLimitDefault := retryLimitDefault o;
     retryDelay := retryDelay o; retryDelayDefault := retryDelayDefault o;
     retryBackoff := retryBackoff o; retryBackoffDefault := retryBackoffDefault o |}.

Definition with_startAfter (o : sendOptions) (after : value) (nextSlot : bool)
  : sendOptions :=
  {| opt_id := opt_id o; opt_db := opt_db o; priority := priority o;
     startAfter := after; singletonKey := singletonKey o;
     singletonSeconds := singletonSeconds o; singletonNextSlot := nextSlot;
     expireIn := expireIn o; expireInDefault := expireInDefault o;
     keepUntil := keepUntil o; keepUntilDefault := keepUntilDefault o;
     retryLimit := retryLimit o; retryLimitDefault := retryLimitDefault o;
     retryDelay := retryDelay o; retryDelayDefault := retryDelayDefault o;
     retryBackoff := retryBackoff o; retryBackoffDefault := retryBackoffDefault o |}.

Record fetchOptions := {
  fetch_batchSize : option Z;
  fetch_includeMetadata : option bool;
  fetch_priority : option bool;
  fetch_db : option executor
}.

(** attorney.js, the argument-validation layer, is not among the sources:
    each check returns the normalised arguments or throws. *)
Class Attorney := {
  checkSendArgs :
    string * value * option sendOptions -> config -> result (string * value * sendOptions);
  checkWorkArgs :
    string -> option workOptions * option handler -> config -> result (workOptions * handler);
  checkFetchArgs : string -> fetchOptions -> result unit;
  assertQueueName : string -> result unit
}.

(** The manager object, the database it talks to, the clock it reads, the
    listeners registered on it by event name, the events it has emitted and
    the rejections of promises nobody awaited. *)
Record manager := {
  mgr_config : config;
  db : executor;
  world : W;
  stopped : bool;
  queueCacheInterval : bool;
  queues : option (gmap string queue);
  workers : JSMap.t worker;
  wipTs : Z;
  clockSkew : Z;
  clock : Z;
  uuids_drawn : nat;
  emitted : list event;
  immediates : list (list string);
  listeners : string -> list listener;
  unhandled : list value
}.

Definition set_world (w : W) (m : manager) : manager :=
  {| mgr_config := mgr_config m; db := db m; world := w; stopped := stopped m;
     queueCacheInterval := queueCacheInterval m; queues := queues m;
     workers := workers m; wipTs := wipTs m; clockSkew := clockSkew m;
     clock := clock m; uuids_drawn := uuids_drawn m; emitted := emitted m;
     immediates := immediates m; listeners := listeners m;
     unhandled := unhandled m |}.

Definition set_stopped (b : bool) (m : manager) : manager :=
  {| mgr_config := mgr_config m; db := db m; world := world m; stopped := b;
     queueCacheInterval := queueCacheInterval m; queues := queues m;
     workers := workers m; wipTs := wipTs m; clockSkew := clockSkew m;
     clock := clock m; uuids_drawn := uuids_drawn m; emitted := emitted m;
     immediates := immediates m; listeners := listeners m;
     unhandled := unhandled m |}.

Definition set_queueCacheInterval (b : bool) (m : manager) : manager :=
  {| mgr_config := mgr_config m; db := db m; world := world m; stopped := stopped m;
     queueCacheInterval := b; queues := queues m;
     workers := workers m; wipTs := wipTs m; clockSkew := clockSkew m;
     clock := clock m; uuids_drawn := uuids_drawn m; emitted := emitted m;
     immediates := immediates m; listeners := listeners m;
     unhandled := unhandled m |}.

Definition set_queues (q : option (gmap string queue)) (m : manager) : manager :=
  {| mgr_config := mgr_config m; db := db m; world := world m; stopped := stopped m;
     queueCacheInterval := queueCacheInterval m; queues := q;
     workers := workers m; wipTs := wipTs m; clockSkew := clockSkew m;
     clock := clock m; uuids_drawn := uuids_drawn m; emitted := emitted m;
     immediates := immediates m; listeners := listeners m;
     unhandled := unhandled m |}.

Definition set_workers (ws : JSMap.t worker) (m : manager) : manager :=
  {| mgr_config := mgr_config m; db := db m; world := world m; stopped := stopped m;
     queueCacheInterval := queueCacheInterval m; queues := queues m;
     workers := ws; wipTs := wipTs m; clockSkew := clockSkew m;
     clock := clock m; uuids_drawn := uuids_drawn m; emitted := emitted m;
     immediates := immediates m; listeners := listeners m;
     unhandled := unhandled m |}.

Definition set_wipTs (t : Z) (m : manager) : manager :=
  {| mgr_config := mgr_config m; db := db m; world := world m; stopped := stopped m;
     queueCacheInterval := queueCacheInterval m; queues := queues m;
     workers := workers m; wipTs := t; clockSkew := clockSkew m;
     clock := clock m; uuids_drawn := uuids_drawn m; emitted := emitted m;
     immediates := immediates m; listeners := listeners m;
     unhandled := unhandled m |}.

Definition set_clock (t : Z) (m : manager) : manager :=
  {| mgr_config := mgr_config m; db := db m; world := world m; stopped := stopped m;
     queueCacheInterval := queueCacheInterval m; queues := queues m;
     workers := workers m; wipTs := wipTs m; clockSkew := clockSkew m;
     clock := t; uuids_drawn := uuids_drawn m; emitted := emitted m;
     immediates := immediates m; listeners := listeners m;
     unhandled := unhandled m |}.

Definition set_uuids_drawn (n : nat) (m : manager) : manager :=
  {| mgr_config := mgr_config m; db := db m; world := world m; stopped := stopped m;
     queueCacheInterval := queueCacheInterval m; queues := queues m;
     workers := workers m; wipTs := wipTs m; clockSkew := clockSkew m;
     clock := clock m; uuids_drawn := n; emitted := emitted m;
     immediates := immediates m; listeners := listeners m;
     unhandled := unhandled m |}.

Definition set_emitted (es : list event) (m : manager) : manager :=
  {| mgr_config := mgr_config m; db := db m; world := world m; stopped := stopped m;
     queueCacheInterval := queueCacheInterval m; queues := queues m;
     workers := workers m; wipTs := wipTs m; clockSkew := clockSkew m;
     clock := clock m; uuids_drawn := uuids_drawn m; emitted := es;
     immediates := immediates m; listeners := listeners m;
     unhandled := unhandled m |}.

Definition set_immediates (l : list (list string)) (m : manager) : manager :=
  {| mgr_config := mgr_config m; db := db m; world := world m; stopped := stopped m;
     queueCacheInterval := queueCacheInterval m; queues := queues m;
     workers := workers m; wipTs := wipTs m; clockSkew := clockSkew m;
     clock := clock m; uuids_drawn := uuids_drawn m; emitted := emitted m;
     immediates := l; listeners := listeners m; unhandled := unhandled m |}.

Definition set_unhandled (es : list value) (m : manager) : manager :=
  {| mgr_config := mgr_config m; db := db m; world := world m; stopped := stopped m;
     queueCacheInterval := queueCacheInterval m; queues := queues m;
     workers := workers m; wipTs := wipTs m; clockSkew := clockSkew m;
     clock := clock m; uuids_drawn := uuids_drawn m; emitted := emitted m;
     immediates := immediates m; listeners := listeners m; unhandled := es |}.

(** *** The manager's methods as state transformers

    A method takes the manager and returns what it returned or threw,
    together with the manager afterwards.  An [await] is sequencing. *)
Definition M (A : Type) : Type := manager -> result A * manager.

#[export] Instance M_ret : MRet M := fun A a m => (Ok a, m).
#[export] Instance M_bind : MBind M := fun A B k c m =>
  match c m with
  | (Ok a, m') => k a m'
  | (Throw e, m') => (Throw e, m')
  end.

Definition throw {A} (e : value) : M A := fun m => (Throw e, m).
Definition this : M manager := fun m => (Ok m, m).
Definition modify (f : manager -> manager) : M unit := fun m => (Ok tt, f m).
Definition lift {A} (r : result A) : M A := fun m => (r, m).

(** [try { c } catch (err) { h err }] *)
Definition try_catch {A} (c : M A) (h : value -> M A) : M A := fun m =>
  match c m with
  | (Ok a, m') => (Ok a, m')
  | (Throw e, m') => h e m'
  end.

(** A call of an async method whose promise is neither awaited nor
    otherwise used: it runs, what it returns is dropped, and what it throws
    is a rejection nobody handles. *)
Definition detached {A} (c : M A) : M unit := fun m =>
  match c m with
  | (Ok _, m') => (Ok tt, m')
  | (Throw e, m') => (Ok tt, set_unhandled (unhandled m' ++ [e]) m')
  end.

Fixpoint for_of {A} (l : list A) (body : A -> M unit) : M unit :=
  match l with
  | [] => mret tt
  | x :: l' => _ ← body x; for_of l' body
  end.

Definition executeSql {R} (d : executor) (q : sql R) (values : option (list value))
  : M (list R) := fun m =>
  let '(r, w) := d R q values (world m) in (r, set_world w m).

(** [Date.now()] *)
Definition Date_now : M Z := fun m => (Ok (clock m), m).

(** The error [emit] of node:events throws for an "error" event nobody
    listens to, when what was emitted is no [Error] (here it is an object
    literal): told by its [code]; its [context] is what was emitted, kept as
    the error the event was built from. *)
Definition ERR_UNHANDLED_ERROR (context : value) : value :=
  VObject [("code", VStr "ERR_UNHANDLED_ERROR"); ("context", context)].

(** [this.emit (...)] of node:events: the listeners registered for the
    event run in order, and what one throws is thrown to the caller; an
    "error" event without a listener is thrown.  Returns whether there was a
    listener.  The call is recorded in [emitted] first. *)
Definition emit (e : event) : M bool :=
  _ ← modify (fun m => set_emitted (emitted m ++ [e]) m);
  m ← this;
  match listeners m (event_name e) with
  | [] =>
      match e with
      | error_event error _ _ => throw (ERR_UNHANDLED_ERROR error)
      | wip_event _ => mret false
      end
  | ls => _ ← for_of ls (fun l => lift (l e)); mret true
  end.

(** [{ ...error, message: error.message, stack: error.stack, queue, worker }]:
    reading [message] off [null] or [undefined] throws. *)
Definition error_payload (error : value) (queue worker : option string) : result event :=
  match error with
  | VNull => Throw (VTypeError (ReadOfNull "message"))
  | VUndefined => Throw (VTypeError (ReadOfUndefined "message"))
  | _ => Ok (error_event error queue worker)
  end.

(** [randomUUID ({ disableEntropyCache: true })] *)
Definition randomUUID `{Crypto} : M string := fun m =>
  (Ok (randomUUID_nth (uuids_drawn m)), set_uuids_drawn (S (uuids_drawn m)) m).

Context `{!Attorney, !Serializer, !Timekeeper, !Crypto, !WorkerClass}.

(** [getQueues (names)] *)
Definition getQueues (names : option (list string)) : M (list queue) :=
  _ ← match names with
      | Some names => for_of names (fun name => lift (assertQueueName name))
      | None => mret tt
      end;
  m ← this;
  executeSql (db m) (plans.getQueues (schema (mgr_config m)) names) None.

(** [onCacheQueues ()] *)
Definition onCacheQueues : M unit :=
  try_catch
    (queues ← getQueues None;
     modify (set_queues
       (Some (fold_left (fun acc i => <[queue_name i := i]> acc) queues ∅))))
    (fun error =>
       payload ← lift (error_payload error None None);
       _ ← emit payload;
       mret tt).

(** [start ()] *)
Definition start : M unit :=
  _ ← modify (set_stopped false);
  _ ← modify (set_queueCacheInterval true);
  detached onCacheQueues.

(** [getQueue (name)] *)
Definition getQueue (name : string) : M (option queue) :=
  _ ← lift (assertQueueName name);
  m ← this;
  rows ← executeSql (db m) (plans.getQueues (schema (mgr_config m)) (Some [name])) None;
  mret (head rows).

(** [getQueueCache (name)]: [this.queues] is [null] until the cache has
    been filled. *)
Definition getQueueCache (name : string) : M cached :=
  m ← this;
  match queues m with
  | None => throw (VTypeError (ReadOfNull name))
  | Some cache =>
      let queue := cache_get cache name in
      if cached_truthy queue then mret queue
      else
        queue ← getQueue name;
        match queue with
        | None => throw (Error ("Queue " +:+ name +:+ " does not exist"))
        | Some queue =>
            m ← this;
            match queues m with
            | None => throw (VTypeError (ReadOfNull name))
            | Some cache =>
                _ ← modify (set_queues (Some (<[name := queue]> cache)));
                mret (Row queue)
            end
        end
  end.

(** [addWorker (worker)], [removeWorker (worker)], [getWorkers ()] *)
Definition addWorker (w : worker) : M unit :=
  modify (fun m => set_workers (JSMap.set (workers m) (worker_id w) w) m).

Definition removeWorker (w : worker) : M unit :=
  modify (fun m => set_workers (JSMap.delete (workers m) (worker_id w)) m).

Definition getWorkers : M (list worker) :=
  m ← this; mret (JSMap.values (workers m)).

(** [getWipData (options)] *)
Definition getWipData (includeInternal : bool) : M (list wip) :=
  ws ← getWorkers;
  mret (List.filter
          (fun i => (0 <? wip_count i) && (negb (INTERNAL_QUEUES (wip_name i)) || includeInternal))
          (map (fun w =>
                  {| wip_id := worker_id w; wip_name := worker_name w;
                     wip_options := worker_options w; wip_state := state w;
                     wip_count := Z.of_nat (length (jobs w));
                     wip_createdOn := createdOn w;
                     wip_lastFetchedOn := lastFetchedOn w;
                     wip_lastJobStartedOn := lastJobStartedOn w;
                     wip_lastJobEndedOn := lastJobEndedOn w;
                     wip_lastError := lastError w;
                     wip_lastErrorOn := lastErrorOn w |}) ws)).

(** [emitWip (name)] *)
Definition emitWip (name : string) : M unit :=
  if negb (INTERNAL_QUEUES name) then
    now ← Date_now;
    m ← this;
    if 2000 <? now - wipTs m then
      data ← getWipData false;
      _ ← emit (wip_event data);
      modify (set_wipTs now)
    else mret tt
  else mret tt.

(** [mapCompletionIdArg (id, funcName)] *)
Definition mapCompletionIdArg (id : value) (funcName : string) : result (list value) :=
  let errorMessage := funcName +:+ "() requires an id" in
  _ ← assert (truthy id) errorMessage;
  let ids := match id with VArray ids => ids | _ => [id] end in
  _ ← assert (negb (Nat.eqb (length ids) 0)) errorMessage;
  mret ids.

(** [mapCompletionDataArg (data)] *)
Definition mapCompletionDataArg (data : value) : value :=
  match data with
  | VNull | VUndefined | VFunction _ => VNull
  | _ =>
      let result :=
        if String.eqb (typeof data) "object" && negb (isArray data)
        then data
        else VObject [("value", data)] in
      stringify result
  end.

(** [mapCommandResponse (ids, result)] *)
Definition mapCommandResponse (ids : list value) (rows : list counted)
  : result commandResponse :=
  match rows with
  | [] => Throw (VTypeError (ReadOfUndefined "count"))
  | row :: _ =>
      Ok {| response_jobs := ids; requested := Z.of_nat (length ids);
            affected := count row |}
  end.

(** [complete (name, id, data, options)] *)
Definition complete (name : string) (id data : value) (options_db : option executor)
  : M commandResponse :=
  _ ← lift (assertQueueName name);
  m ← this;
  let db := default (db m) options_db in
  ids ← lift (mapCompletionIdArg id "complete");
  q ← getQueueCache name;
  m ← this;
  let sql := plans.completeJobs (schema (mgr_config m)) (table_of q) in
  result ← executeSql db sql (Some [VStr name; VArray ids; mapCompletionDataArg data]);
  lift (mapCommandResponse ids result).

(** [fail (name, id, data, options)] *)
Definition fail (name : string) (id data : value) (options_db : option executor)
  : M commandResponse :=
  _ ← lift (assertQueueName name);
  m ← this;
  let db := default (db m) options_db in
  ids ← lift (mapCompletionIdArg id "fail");
  queue ← getQueueCache name;
  m ← this;
  let sql := plans.failJobsById (schema (mgr_config m)) queue in
  result ← executeSql db sql (Some [VStr name; VArray ids; mapCompletionDataArg data]);
  lift (mapCommandResponse ids result).

(** [fetch (name, options)] *)
Definition fetch (name : string) (options : fetchOptions) : M (list job) :=
  _ ← lift (checkFetchArgs name options);
  m ← this;
  let db := default (db m) (fetch_db options) in
  q ← getQueueCache name;
  m ← this;
  let sql :=
    plans.fetchNextJob
      {| arg_batchSize := fetch_batchSize options;
         arg_includeMetadata := fetch_includeMetadata options;
         arg_priority := fetch_priority options;
         arg_schema := schema (mgr_config m);
         arg_table := table_of q;
         arg_name := name;
         arg_limit := fetch_batchSize options |} in
  result ← try_catch (rows ← executeSql db sql None; mret (Some rows))
             (fun err => mret None);
  mret (default [] result).

(** The destructuring defaults [id = null] and [singletonKey = null]. *)
Definition default_null (v : value) : value :=
  match v with VUndefined => VNull | _ => v end.

(** A number that may be absent: [undefined] when it is. *)
Definition optional_number (n : option Z) : value :=
  match n with Some n => VNum n | None => VUndefined end.

(** A parameter with a default value: the default stands in for
    [undefined], also when [undefined] is passed. *)
Definition default_parameter (v d : value) : value :=
  match v with VUndefined => d | _ => v end.

(** [getDebounceStartAfter (singletonSeconds, clockOffset)], from the
    reading [now] of [Date.now()].  With a zero [debounceInterval] (also
    when [singletonSeconds] is absent) the slot is not a number, nor is the
    difference, and [|| 1] yields 1. *)
Definition debounceStartAfter (singletonSeconds : option Z) (clockOffset now : Z) : Z :=
  match singletonSeconds with
  | None => 1
  | Some singletonSeconds =>
      let debounceInterval := singletonSeconds * 1000 in
      if debounceInterval =? 0 then 1
      else
        let now := now + clockOffset in
        let slot := (now / debounceInterval) * debounceInterval in
        let startAfter := singletonSeconds - (now - slot) / 1000 in
        let startAfter := if startAfter =? 0 then 1 else startAfter in
        if 1 <? singletonSeconds then startAfter + 1 else startAfter
  end.

Definition getDebounceStartAfter (singletonSeconds : option Z) (clockOffset : Z) : M Z :=
  now ← Date_now;
  mret (debounceStartAfter singletonSeconds clockOffset now).

(** The eighteen positional values of the insert statement. *)
Definition insert_values (name : string) (data : value) (options : sendOptions)
    (singletonOffset : value) : list value :=
  [ default_null (opt_id options);
    VStr name;
    data;
    priority options;
    startAfter options;
    default_null (singletonKey options);
    optional_number (singletonSeconds options);
    singletonOffset;
    expireIn options;
    expireInDefault options;
    keepUntil options;
    keepUntilDefault options;
    retryLimit options;
    retryLimitDefault options;
    retryDelay options;
    retryDelayDefault options;
    retryBackoff options;
    retryBackoffDefault options ].

(** [createJob (name, data, options, singletonOffset = 0)].  The method
    calls itself; [depth] bounds the nesting of calls, and a call beyond it
    is the engine's stack overflow. *)
Fixpoint createJob_depth (depth : nat) (name : string) (data : value)
    (options : sendOptions) (singletonOffset : value) : M (option string) :=
  match depth with
  | O => throw (VError "RangeError" "Maximum call stack size exceeded")
  | S depth =>
      let singletonOffset := default_parameter singletonOffset (VNum 0) in
      let values := insert_values name data options singletonOffset in
      m ← this;
      let db := default (db m) (opt_db options) in
      q ← getQueueCache name;
      m ← this;
      let sql := plans.insertJob (schema (mgr_config m)) (table_of q) in
      rows ← executeSql db sql (Some values);
      match rows with
      | [row] => mret (Some (inserted_id row))
      | _ =>
          if negb (singletonNextSlot options) then mret None
          else
            m ← this;
            startAfter ← getDebounceStartAfter (singletonSeconds options) (clockSkew m);
            let options := with_startAfter options (VNum startAfter) false in
            let singletonOffset := optional_number (singletonSeconds options) in
            createJob_depth depth name data options singletonOffset
      end
  end.

(** A first call and the one call it can make. *)
Definition createJob (name : string) (data : value) (options : sendOptions)
    (singletonOffset : value) : M (option string) :=
  createJob_depth 2 name data options singletonOffset.

(** [send (...args)] *)
Definition send (args : string * value * option sendOptions) : M (option string) :=
  m ← this;
  '(name, data, options) ← lift (checkSendArgs args (mgr_config m));
  createJob name data options VUndefined.

(** [sendAfter (name, data, options, after)] *)
Definition sendAfter (name : string) (data : value) (options : option sendOptions)
    (after : value) : M (option string) :=
  let options := default no_options options in
  let options := with_startAfter options after (singletonNextSlot options) in
  m ← this;
  '(name, data, options) ← lift (checkSendArgs (name, data, Some options) (mgr_config m));
  createJob name data options VUndefined.

(** [sendThrottled (name, data, options, seconds, key)] *)
Definition sendThrottled (name : string) (data : value) (options : option sendOptions)
    (seconds : option Z) (key : value) : M (option string) :=
  let options := default no_options options in
  let options := with_singleton options seconds false key in
  m ← this;
  '(name, data, options) ← lift (checkSendArgs (name, data, Some options) (mgr_config m));
  createJob name data options VUndefined.

(** [sendDebounced (name, data, options, seconds, key)] *)
Definition sendDebounced (name : string) (data : value) (options : option sendOptions)
    (seconds : option Z) (key : value) : M (option string) :=
  let options := default no_options options in
  let options := with_singleton options seconds true key in
  m ← this;
  '(name, data, options) ← lift (checkSendArgs (name, data, Some options) (mgr_config m));
  createJob name data options VUndefined.

(** [await resolveWithinSeconds (callback (jobs), seconds)]: the clock
    advances by the time spent awaiting. *)
Definition await_resolveWithinSeconds (call : invocation) (seconds : Z) : M value :=
  match call with
  | Throws e => throw e
  | Returns p =>
      let '(t, r) := resolveWithinSeconds p seconds in
      _ ← modify (fun m => set_clock (clock m + t) m);
      lift r
  end.

(** The closure [onFetch] that [watch] builds, over the [name] and
    [callback] it captures. *)
Definition onFetch (name : string) (callback : handler) (jobs : list job) : M unit :=
  if Nat.eqb (length jobs) 0 then mret tt
  else
    m ← this;
    if __test__throw_worker (mgr_config m) then throw (Error "__test__throw_worker")
    else
      _ ← emitWip name;
      let maxExpiration := fold_left (fun acc i => Z.max acc (expireInSeconds i)) jobs 0 in
      let jobIds := map (fun job => VStr (id job)) jobs in
      _ ← try_catch
            (result ← await_resolveWithinSeconds (callback jobs) maxExpiration;
             detached
               (complete name (VArray jobIds)
                  (if Nat.eqb (length jobIds) 1 then result else VUndefined) None))
            (fun err => detached (fail name (VArray jobIds) err None));
      emitWip name.

(** The closures [fetch] and [onError] that [watch] builds. *)
Definition watch_fetch (name : string) (options : workOptions) : M (list job) :=
  fetch name
    {| fetch_batchSize := work_batchSize options;
       fetch_includeMetadata := Some (default false (work_includeMetadata options));
       fetch_priority := Some (default true (work_priority options));
       fetch_db := None |}.

Definition onError (name id : string) (error : value) : M unit :=
  payload ← lift (error_payload error (Some name) (Some id));
  _ ← emit payload;
  mret tt.

(** [watch (name, options, callback)] *)
Definition watch (name : string) (options : workOptions) (callback : handler) : M string :=
  m ← this;
  if stopped m then throw (Error "Workers are disabled. pg-boss is stopped")
  else
    let interval := default (pollingInterval (mgr_config m)) (work_pollingInterval options) in
    id ← randomUUID;
    let worker := Worker_new id name options interval callback in
    _ ← addWorker worker;
    _ ← modify (fun m => set_workers (JSMap.mutate (workers m) (worker_id worker) Worker_start) m);
    mret id.

(** [work (name, ...args)] *)
Definition work (name : string) (args : option workOptions * option handler) : M string :=
  m ← this;
  '(options, callback) ← lift (checkWorkArgs name args (mgr_config m));
  watch name options callback.

(** [offWork (value)]: [value] is a queue name or an object [{ id }].  The
    callback handed to [setImmediate] is recorded in [immediates] by the
    keys of the workers it waits for. *)
Definition offWork (value : string + string) : M unit :=
  _ ← lift (assert (match value with inl s => negb (String.eqb s "") | inr _ => true end)
              "Missing required argument");
  let query :=
    match value with
    | inl name => Some (fun i => String.eqb (worker_name i) name)
    | inr id =>
        if negb (String.eqb id "") then Some (fun i => String.eqb (worker_id i) id)
        else None
    end in
  match query with
  | None => throw (VError "AssertionError" "Invalid argument. Expected string or object: { id }")
  | Some filter =>
      m ← this;
      let workers :=
        List.filter
          (fun e => filter e.2 && negb (stopping e.2) && negb (worker_stopped e.2))
          (workers m) in
      if Nat.eqb (length workers) 0 then mret tt
      else
        _ ← for_of workers (fun e =>
              modify (fun m => set_workers (JSMap.mutate (Manager.workers m) e.1 Worker_stop) m));
        modify (fun m => set_immediates (immediates m ++ [map fst workers]) m)
  end.

(** One turn of the loop in the callback [offWork] hands to [setImmediate]:
    once every worker it waits for has stopped, they are removed. *)
Definition offWork_immediate (keys : list string) : M bool :=
  m ← this;
  let workers := omap (JSMap.get (workers m)) keys in
  if forallb worker_stopped workers then
    _ ← for_of workers removeWorker; mret true
  else mret false.

(** [stop ()] *)
Definition stop : M unit :=
  _ ← modify (set_stopped true);
  _ ← modify (set_queueCacheInterval false);
  m ← this;
  for_of (JSMap.keys (workers m)) (fun key =>
    m ← this;
    match JSMap.get (workers m) key with
    | Some worker =>
        if negb (INTERNAL_QUEUES (worker_name worker))
        then offWork (inl (worker_name worker))
        else mret tt
    | None => mret tt
    end).

(** [failWip ()] *)
Definition failWip : M unit :=
  m ← this;
  for_of (JSMap.keys (workers m)) (fun key =>
    m ← this;
    match JSMap.get (workers m) key with
    | Some worker =>
        let jobIds := map (fun j => VStr (id j)) (jobs worker) in
        if negb (Nat.eqb (length jobIds) 0)
        then _ ← fail (worker_name worker) (VArray jobIds)
                   (VStr "pg-boss shut down while active") None;
             mret tt
        else mret tt
    | None => mret tt
    end).

(** [notifyWorker (workerId)] *)
Definition notifyWorker (workerId : string) : M unit :=
  m ← this;
  if JSMap.has (workers m) workerId then
    modify (fun m => set_workers (JSMap.mutate (workers m) workerId Worker_notify) m)
  else mret tt.

End Manager.

Arguments executor W : clear implicits.
Arguments sendOptions W : clear implicits.
Arguments fetchOptions W : clear implicits.
Arguments Attorney W : clear implicits.
Arguments manager W : clear implicits.
Arguments M W A : clear implicits.

End Manager.

(** * Specification-side definitions *)

Module MigrationSpec.
Import Plans MigrationStore.

(** The migrations [migrate] selects, in the order it applies them. *)
Definition selected (version : Z) (migrations : list migration) : list migration :=
  sort_by_version (List.filter (fun i => previous i >=? version) migrations).

Definition version_le (a b : migration) : Prop :=
  MigrationStore.version a <= MigrationStore.version b.

Inductive operation := Next | Rollback | Migrate.

Definition run (op : operation) (schema : string) (version : Z)
    (migrations : option (list migration)) : result plan :=
  match op with
  | Next => next schema version migrations
  | Rollback => rollback schema version migrations
  | Migrate => migrate (inl schema) version migrations
  end.

(** The statements a hop from [version] applies and the version it ends
    at, for each operation. *)
Inductive hop (ms : list migration) (version : Z)
  : operation -> list command -> Z -> Prop :=
| hop_next m :
    m ∈ ms -> previous m = version ->
    hop ms version Next (install m) (MigrationStore.version m)
| hop_rollback m :
    m ∈ ms -> MigrationStore.version m = version ->
    hop ms version Rollback (default [] (uninstall m)) (previous m)
| hop_migrate :
    hop ms version Migrate
      (concat (map install (selected version ms)))
      (default version (last (map MigrationStore.version (selected version ms)))).

(** The wrapping as the specification words it: the assertion names the
    version the hop starts from, the bump the version it ends at. *)
Definition wrapped_from_source (schema : string) (statements : list command)
    (source target : Z) : plan :=
  locked schema (assertMigration schema source :: statements ++ [setVersion schema target]).

(** The entries for versions 20 and 19 of [getAll], which evaluate. *)
Definition chain_20_19 (schema : string) : list migration :=
  match eval_migrations [migration_20 schema; migration_19 schema] with
  | Ok ms => ms
  | Throw _ => []
  end.

(** A migration from version 20 to version 21, each array of its own. *)
Definition a_migration_21 : migration :=
  {| release := "10.0.0"; version := 21; previous := 20;
     install := [Sql "ALTER TABLE pgboss.job ADD COLUMN policy text"];
     uninstall := Some [Sql "ALTER TABLE pgboss.job DROP COLUMN policy"] |}.

End MigrationSpec.

Module ManagerSpec.
Import Manager.

Section Spec.
Context {W : Type}.
Context `{!Attorney W, !Serializer, !Timekeeper, !Crypto, !WorkerClass}.

(** What [complete] stores as [output], by the kind of value it is given. *)
Definition stored_output (data : value) : value :=
  match data with
  | VNull | VUndefined | VFunction _ => VNull
  | VObject _ | VError _ _ | VTypeError _ => stringify data
  | VBool _ | VNum _ | VStr _ | VArray _ => stringify (VObject [("value", data)])
  end.

(** "Is an object", as [typeof] has it. *)
Definition is_object (data : value) : Prop :=
  typeof data = "object" /\ data <> VNull.

(** The largest [expireInSeconds] of a batch. *)
Definition batch_max (jobs : list job) : Z :=
  foldr Z.max 0 (map expireInSeconds jobs).

(** The handler's deadline in seconds, as the code has it. *)
Definition deadline (jobs : list job) : Z := Z.max 1 (batch_max jobs).

Definition batch_ids (jobs : list job) : value :=
  VArray (map (fun job => VStr (id job)) jobs).

Definition timeout_message (ms : Z) : string :=
  "handler execution exceeded " +:+ number_to_string ms +:+ "ms".

(** The worker's handling of a non-empty batch in the specification's
    words, for a deadline of [seconds]: race the handler against the timer;
    fail the batch when the timer wins or the handler fails, complete it
    when the handler wins. *)
Definition batch_handling (seconds : Z) (name : string) (callback : handler)
    (jobs : list job) : M W unit :=
  let ms := seconds * 1000 in
  let wait t := modify (fun m => set_clock (clock m + t) m) in
  let timer_wins :=
    _ ← wait ms;
    detached (fail name (batch_ids jobs) (Error (timeout_message ms)) None) in
  _ ← emitWip name;
  _ ← match callback jobs with
      | Throws e => detached (fail name (batch_ids jobs) e None)
      | Returns None => timer_wins
      | Returns (Some (t, outcome)) =>
          if t <=? ms then
            _ ← wait t;
            match outcome with
            | Fulfilled v =>
                detached
                  (complete name (batch_ids jobs)
                     (match jobs with [_] => v | _ => VUndefined end) None)
            | Rejected e => detached (fail name (batch_ids jobs) e None)
            end
          else timer_wins
      end;
  emitWip name.

(** The calls a manager can receive besides [start], and the clock tick of
    its own timers and worker loops. *)
Inductive call :=
| call_send (args : string * value * option (sendOptions W))
| call_sendAfter (name : string) (data : value) (options : option (sendOptions W))
    (after : value)
| call_sendThrottled (name : string) (data : value) (options : option (sendOptions W))
    (seconds : option Z) (key : value)
| call_sendDebounced (name : string) (data : value) (options : option (sendOptions W))
    (seconds : option Z) (key : value)
| call_fetch (name : string) (options : fetchOptions W)
| call_complete (name : string) (id data : value) (options_db : option (executor W))
| call_fail (name : string) (id data : value) (options_db : option (executor W))
| call_work (name : string) (args : option workOptions * option handler)
| call_offWork (value : string + string)
| call_notifyWorker (workerId : string)
| call_stop
| call_failWip
| call_getQueues (names : option (list string))
| call_getQueue (name : string)
| tick_onFetch (name : string) (callback : handler) (jobs : list job)
| tick_immediate (keys : list string)
| tick_onCacheQueues.

Definition perform (c : call) (m : manager W) : manager W :=
  match c with
  | call_send args => (send args m).2
  | call_sendAfter name data options after => (sendAfter name data options after m).2
  | call_sendThrottled name data options seconds key =>
      (sendThrottled name data options seconds key m).2
  | call_sendDebounced name data options seconds key =>
      (sendDebounced name data options seconds key m).2
  | call_fetch name options => (fetch name options m).2
  | call_complete name id data options_db => (complete name id data options_db m).2
  | call_fail name id data options_db => (fail name id data options_db m).2
  | call_work name args => (work name args m).2
  | call_offWork value => (offWork value m).2
  | call_notifyWorker workerId => (notifyWorker workerId m).2
  | call_stop => (stop m).2
  | call_failWip => (failWip m).2
  | call_getQueues names => (getQueues names m).2
  | call_getQueue name => (getQueue name m).2
  | tick_onFetch name callback jobs => (onFetch name callback jobs m).2
  | tick_immediate keys => (offWork_immediate keys m).2
  | tick_onCacheQueues => (onCacheQueues m).2
  end.

Definition perform_all (cs : list call) (m : manager W) : manager W :=
  fold_left (fun m c => perform c m) cs m.


(** A name the cache, read as the plain object it is, does not resolve:
    it has no entry of that name, its prototype is the one it was created
    with, and [Object.prototype] defines no such name. *)
Definition unknown_to (cache : gmap string queue) (name : string) : Prop :=
  cache !! name = None /\ cache !! "__proto__" = None /\ name ∉ Object_prototype.

(** The listeners for [e] all return when called with it. *)
Definition heard (m : manager W) (e : event) : Prop :=
  Forall (fun l : listener => l e = Ok tt) (listeners m (event_name e)).

(** What the first listener that throws when called with [e] throws, if
    one does. *)
Fixpoint first_thrown (ls : list listener) (e : event) : option value :=
  match ls with
  | [] => None
  | l :: ls =>
      match l e with
      | Throw x => Some x
      | Ok _ => first_thrown ls e
      end
  end.

(** The eighteen values of an insert attempt in the specification's words,
    slot by slot: the id (or [null]), the name, the data, the priority,
    [startAfter], the singleton key (or [null]), [singletonSeconds],
    [singletonOffset], then the expiration, retention and retry settings,
    each followed by its default. *)
Definition attempt (name : string) (data : value) (o : sendOptions W)
    (startAfter singletonOffset : value) : list value :=
  [ match opt_id o with VUndefined => VNull | id => id end;
    VStr name;
    data;
    priority o;
    startAfter;
    match singletonKey o with VUndefined => VNull | key => key end;
    match singletonSeconds o with Some s => VNum s | None => VUndefined end;
    singletonOffset;
    expireIn o; expireInDefault o;
    keepUntil o; keepUntilDefault o;
    retryLimit o; retryLimitDefault o;
    retryDelay o; retryDelayDefault o;
    retryBackoff o; retryBackoffDefault o ].


(** [c] leaves the part [proj] of the manager as it was. *)
Definition keeps {A B} (proj : manager W -> B) (c : M W A) : Prop :=
  forall m : manager W, proj (c m).2 = proj m.

(** A projection that none of the setters used outside [start], [stop]
    and the clock touch. *)
Class Untouched {B} (proj : manager W -> B) := {
  untouched_world w m : proj (set_world w m) = proj m;
  untouched_queues q m : proj (set_queues q m) = proj m;
  untouched_workers ws m : proj (set_workers ws m) = proj m;
  untouched_wipTs t m : proj (set_wipTs t m) = proj m;
  untouched_uuids n m : proj (set_uuids_drawn n m) = proj m;
  untouched_emitted es m : proj (set_emitted es m) = proj m;
  untouched_immediates l m : proj (set_immediates l m) = proj m;
  untouched_unhandled es m : proj (set_unhandled es m) = proj m
}.

#[export] Instance untouched_stopped : Untouched stopped.
Proof. by split. Qed.
#[export] Instance untouched_db : Untouched db.
Proof. by split. Qed.
#[export] Instance untouched_config : Untouched mgr_config.
Proof. by split. Qed.
#[export] Instance untouched_clock : Untouched clock.
Proof. by split. Qed.
#[export] Instance untouched_clockSkew : Untouched clockSkew.
Proof. by split. Qed.


End Spec.
End ManagerSpec.

(** * Fixtures: a recording database and permissive collaborators *)

Module Fixture.
Import Manager.

Record entry := { statement : string; params : list value }.

Definition ledger : Type := list entry.

Definition statement_name {R} (q : sql R) : string :=
  match q with
  | plans.insertJob _ _ => "insertJob"
  | plans.fetchNextJob _ => "fetchNextJob"
  | plans.completeJobs _ _ => "completeJobs"
  | plans.failJobsById _ _ => "failJobsById"
  | plans.getQueues _ _ => "getQueues"
  end.

Definition record {R} (q : sql R) (values : option (list value)) (w : ledger) : ledger :=
  w ++ [{| statement := statement_name q; params := default [] values |}].

Definition inserts_so_far (w : ledger) : nat :=
  length (List.filter (fun e => String.eqb (statement e) "insertJob") w).

(** A database that answers: the [n]-th insert returns [inserts n]. *)
Definition db_up (inserts : nat -> list inserted) : executor ledger :=
  fun R q values w =>
    (match q in plans.sql R return result (list R) with
     | plans.insertJob _ _ => Ok (inserts (inserts_so_far w))
     | plans.fetchNextJob _ => Ok []
     | plans.completeJobs _ _ => Ok [{| count := 1 |}]
     | plans.failJobsById _ _ => Ok [{| count := 1 |}]
     | plans.getQueues _ names =>
         Ok (map (fun n => {| queue_name := n; table := "j_" +:+ n; metadata := VNull |})
               (default [] names))
     end, record q values w).

(** A database that cannot be reached. *)
Definition db_down : executor ledger :=
  fun R q values w => (Throw (Error "connection refused"), record q values w).

Definition every_insert_succeeds (n : nat) : list inserted :=
  [{| inserted_id := "job-" +:+ pretty n |}].


Definition every_insert_collides (n : nat) : list inserted := [].

Definition no_workOptions : workOptions :=
  {| work_pollingInterval := None; work_batchSize := None;
     work_includeMetadata := None; work_priority := None |}.

#[export] Instance attorney : Attorney ledger :=
  {| checkSendArgs := fun '(name, data, options) _ =>
       Ok (name, data, default no_options options);
     checkWorkArgs := fun _ '(options, callback) _ =>
       match callback with
       | Some callback => Ok (default no_workOptions options, callback)
       | None => Throw (VError "AssertionError" "expected callback to be a function")
       end;
     checkFetchArgs := fun _ _ => Ok tt;
     assertQueueName := fun name =>
       assert (negb (String.eqb name "")) "Name must be a string" |}.

#[export] Instance serializer : Serializer := {| stringify := fun v => v |}.

#[export] Instance timekeeper : Timekeeper :=
  {| INTERNAL_QUEUES := fun name =>
       String.prefix "__pgboss__" name || bool_decide (name ∈ Object_prototype) |}.

#[export] Instance crypto : Crypto :=
  {| randomUUID_nth := fun n => "uuid-" +:+ pretty n |}.

#[export] Instance workerClass : WorkerClass :=
  {| Worker_new := fun id name options interval callback =>
       {| worker_id := id; worker_name := name; worker_options := options;
          interval := interval; callback := callback; state := "created";
          jobs := []; createdOn := VUndefined; lastFetchedOn := VNull;
          lastJobStartedOn := VNull; lastJobEndedOn := VNull;
          lastError := VNull; lastErrorOn := VNull;
          stopping := false; worker_stopped := false |};
     Worker_start := fun w =>
       {| worker_id := worker_id w; worker_name := worker_name w;
          worker_options := worker_options w; interval := interval w;
          callback := callback w; state := "active"; jobs := jobs w;
          createdOn := createdOn w; lastFetchedOn := lastFetchedOn w;
          lastJobStartedOn := lastJobStartedOn w;
          lastJobEndedOn := lastJobEndedOn w; lastError := lastError w;
          lastErrorOn := lastErrorOn w; stopping := stopping w;
          worker_stopped := worker_stopped w |};
     Worker_stop := fun w =>
       {| worker_id := worker_id w; worker_name := worker_name w;
          worker_options := worker_options w; interval := interval w;
          callback := callback w; state := "stopping"; jobs := jobs w;
          createdOn := createdOn w; lastFetchedOn := lastFetchedOn w;
          lastJobStartedOn := lastJobStartedOn w;
          lastJobEndedOn := lastJobEndedOn w; lastError := lastError w;
          lastErrorOn := lastErrorOn w; stopping := true;
          worker_stopped := worker_stopped w |};
     Worker_notify := fun w => w |}.

Definition the_queue : queue :=
  {| queue_name := "q"; table := "j_q"; metadata := VNull |}.

(** A started manager over [d], its queue cache holding [cache]. *)
Definition a_manager (d : executor ledger) (cache : option (gmap string queue))
  : manager ledger :=
  {| mgr_config := {| schema := "pgboss"; pollingInterval := 2000;
                      __test__throw_worker := false |};
     db := d; world := []; stopped := false; queueCacheInterval := true;
     queues := cache; workers := []; wipTs := 1700000000000;
     clockSkew := 0; clock := 1700000003250; uuids_drawn := 0;
     emitted := []; immediates := []; listeners := fun _ => [];
     unhandled := [] |}.

Definition a_job (seconds : Z) : job :=
  {| id := "job-0"; name := "q"; data := VObject []; expireInSeconds := seconds |}.

Definition no_fetchOptions : fetchOptions ledger :=
  {| fetch_batchSize := None; fetch_includeMetadata := None;
     fetch_priority := None; fetch_db := None |}.

Definition cache_q : option (gmap string queue) := Some {[ "q" := the_queue ]}.

Definition never_settles : handler := fun _ => Returns None.

Definition a_manager_with_a_worker : manager ledger :=
  (work "q" (None, Some never_settles) (a_manager (db_up every_insert_succeeds) cache_q)).2.

(** Managers over a database where every insert collides, where only the
    first does, and where none does; one that cannot reach its database. *)
Definition colliding : manager ledger := a_manager (db_up every_insert_collides) cache_q.
Definition healthy : manager ledger := a_manager (db_up every_insert_succeeds) cache_q.
Definition unreachable : manager ledger := a_manager db_down (Some ∅).
Definition unreachable_cached : manager ledger := a_manager db_down cache_q.

Definition throttled : sendOptions ledger :=
  with_singleton no_options (Some 60) false (VStr "k").


(** What the caller of [sendThrottled] may have left in the options: a
    next-slot setting of its own. *)
Definition keen : sendOptions ledger :=
  with_singleton no_options (Some 5) true (VStr "old").

(** The record of an insert into "q" of the data [{}], the options holding
    nothing but what is given here: the eighteen values written out. *)
Definition an_insert (startAfter key seconds offset : value) : entry :=
  {| statement := "insertJob";
     params :=
       [ VNull; VStr "q"; VObject []; VUndefined; startAfter; key; seconds; offset;
         VUndefined; VUndefined; VUndefined; VUndefined; VUndefined;
         VUndefined; VUndefined; VUndefined; VUndefined; VUndefined ] |}.

Definition settles_with_7 : handler :=
  fun _ => Returns (Some (500, Fulfilled (VNum 7))).

Definition a_report (statement : string) (ids : list string) (output : value) : entry :=
  {| statement := statement;
     params := [VStr "q"; VArray (map VStr ids); output] |}.

Definition stopped_manager : manager ledger := (stop healthy).2.

End Fixture.

(** * The worker registry, specification side *)

Module RegistrySpec.
Import Manager ManagerSpec.

(** The workers [offWork (value)] stops: those of the queue, or the one of
    the id, that are neither stopping nor stopped. *)
Definition targets (value : string + string) (w : worker) : bool :=
  match value with
  | inl name => String.eqb (worker_name w) name
  | inr id => String.eqb (worker_id w) id
  end && negb (stopping w) && negb (worker_stopped w).

Section Calls.
Context {W : Type}.

(** The calls that go to the worker registry. *)
Definition registry_call (c : call (W:=W)) : bool :=
  match c with
  | call_work _ _ | call_offWork _ | call_notifyWorker _ | call_stop
  | tick_immediate _ => true
  | _ => false
  end.

(** A part of the manager that belongs to the worker side: the database,
    the queue cache, the wip throttle, the emitted events and the clock are
    no part of it. *)
Class WorkerSide {B} (proj : manager W -> B) := {
  apart_world w m : proj (set_world w m) = proj m;
  apart_queues q m : proj (set_queues q m) = proj m;
  apart_wipTs t m : proj (set_wipTs t m) = proj m;
  apart_emitted es m : proj (set_emitted es m) = proj m;
  apart_clock t m : proj (set_clock t m) = proj m;
  apart_unhandled es m : proj (set_unhandled es m) = proj m
}.

#[export] Instance workerSide_workers : WorkerSide workers.
Proof. by split. Qed.
#[export] Instance workerSide_immediates : WorkerSide immediates.
Proof. by split. Qed.
#[export] Instance workerSide_uuids_drawn : WorkerSide uuids_drawn.
Proof. by split. Qed.
#[export] Instance workerSide_stopped : WorkerSide stopped.
Proof. by split. Qed.

End Calls.
End RegistrySpec.

(** More fixtures: a database that knows no queue, and managers with workers. *)

Module MoreFixtures.
Import Manager ManagerSpec Fixture.

Definition db_without_queues : executor ledger :=
  fun R q values w =>
    (match q in plans.sql R return result (list R) with
     | plans.insertJob _ _ => Ok [{| inserted_id := "job-0" |}]
     | plans.fetchNextJob _ => Ok []
     | plans.completeJobs _ _ => Ok [{| count := 0 |}]
     | plans.failJobsById _ _ => Ok [{| count := 0 |}]
     | plans.getQueues _ _ => Ok []
     end, record q values w).

(** Managers whose cache is empty, over a database that has the queue and
    over one that has none. *)
Definition uncached : manager ledger := a_manager (db_up every_insert_succeeds) (Some ∅).
Definition queueless : manager ledger := a_manager db_without_queues (Some ∅).

(** What the ledger records for a lookup of queues. *)
Definition a_lookup : entry :=
  {| statement := "getQueues"; params := [] |}.

Definition throws_boom : handler := fun _ => Throws (Error "boom").

(** The manager [m] with the listeners [ls] registered. *)
Definition listening (ls : string -> list listener) (m : manager ledger)
  : manager ledger :=
  {| mgr_config := mgr_config m; db := db m; world := world m; stopped := stopped m;
     queueCacheInterval := queueCacheInterval m; queues := queues m;
     workers := workers m; wipTs := wipTs m; clockSkew := clockSkew m;
     clock := clock m; uuids_drawn := uuids_drawn m; emitted := emitted m;
     immediates := immediates m; listeners := ls; unhandled := unhandled m |}.

(** A listener for "error" that returns, and listeners for "wip" the
    second of which throws. *)
Definition an_error_listener (event : string) : list listener :=
  if String.eqb event "error" then [fun _ => Ok tt] else [].

Definition a_failing_wip_listener (event : string) : list listener :=
  if String.eqb event "wip"
  then [fun _ => Ok tt; fun _ => Throw (Error "listener"); fun _ => Throw (Error "late")]
  else [].

(** Workers on the queues "q" and "r", and on "q" and an internal queue. *)
Definition two_workers : manager ledger :=
  (work "r" (None, Some never_settles) a_manager_with_a_worker).2.

Definition with_an_internal_worker : manager ledger :=
  (work "__pgboss__cron" (None, Some never_settles) a_manager_with_a_worker).2.

Definition three_migrations : list MigrationStore.migration :=
  MigrationSpec.a_migration_21 :: MigrationSpec.chain_20_19 "pgboss".

End MoreFixtures.

(** * Facts about the migration store *)

Section Sorting.
Import Plans MigrationStore MigrationSpec.



Lemma insert_by_version_perm m l : insert_by_version m l ≡ₚ m :: l.
Proof.
  induction l as [|x l IH]; simpl; [done|].
  destruct (version m <=? version x); [done|].
  rewrite IH. apply Permutation_swap.
Qed.

Lemma sort_by_version_perm l : sort_by_version l ≡ₚ l.
Proof.
  induction l as [|m l IH]; simpl; [done|].
  by rewrite insert_by_version_perm, IH.
Qed.

Lemma insert_by_version_sorted m l :
  StronglySorted version_le l -> StronglySorted version_le (insert_by_version m l).
Proof.
  induction 1 as [|x l Hl IH Hx]; simpl.
  - repeat constructor.
  - destruct (Z.leb_spec (version m) (version x)).
    + constructor; [by constructor|].
      constructor; [done|].
      eapply Forall_impl; [exact Hx|]. unfold version_le. intros; simpl in *; lia.
    + constructor; [done|].
      rewrite insert_by_version_perm. constructor; [|done].
      unfold version_le; lia.
Qed.

Lemma sort_by_version_sorted l : StronglySorted version_le (sort_by_version l).
Proof.
  induction l; simpl; [constructor|]. by apply insert_by_version_sorted.
Qed.

Lemma insert_by_version_stable v m l :
  StronglySorted version_le l ->
  List.filter (fun i => version i =? v) (insert_by_version m l)
  = List.filter (fun i => version i =? v) (m :: l).
Proof.
  induction 1 as [|x l Hl IH Hx]; [done|].
  cbn [insert_by_version].
  destruct (Z.leb_spec (version m) (version x)) as [Hle|Hlt]; [done|].
  cbn [List.filter] in *. rewrite IH.
  destruct (Z.eqb_spec (version m) v) as [Hm|Hm]; [|done].
  destruct (Z.eqb_spec (version x) v) as [Hxv|Hxv]; [lia|done].
Qed.

Lemma sort_by_version_stable v l :
  List.filter (fun i => version i =? v) (sort_by_version l)
  = List.filter (fun i => version i =? v) l.
Proof.
  induction l as [|m l IH]; [done|].
  cbn [sort_by_version].
  rewrite insert_by_version_stable by apply sort_by_version_sorted.
  cbn [List.filter]. by rewrite IH.
Qed.

Lemma reduce_install l a :
  acc_install (fold_left reduce_step l a) = acc_install a ++ concat (map install l).
Proof.
  revert a. induction l as [|m l IH]; intros a; simpl.
  - by rewrite app_nil_r.
  - rewrite IH. simpl. by rewrite app_assoc.
Qed.

Lemma reduce_version l a :
  acc_version (fold_left reduce_step l a)
  = default (acc_version a) (last (map version l)).
Proof.
  induction l as [|m l IH] using rev_ind; [done|].
  rewrite fold_left_app, map_app. simpl. by rewrite last_snoc.
Qed.

End Sorting.

Section MigrationStoreFacts.
Import Plans MigrationStore MigrationSpec.

Lemma find_elem_of {A} (f : A -> bool) l x :
  List.find f l = Some x -> x ∈ l /\ f x = true.
Proof.
  intros Hf. apply find_some in Hf as [Hin Hfx].
  split; [by apply list_elem_of_In|done].
Qed.

(** C4 (as amended): every plan [next], [rollback] or [migrate] returns is
    [plans.locked (schema, ...)] of the hop's statements with
    [plans.assertMigration (schema, v)] put in front and
    [plans.setVersion (schema, v)] put behind, both for the same [v], the
    version the hop ends at: the migration's [version] for [next], its
    [previous] for [rollback], the highest selected version for [migrate]. *)
Theorem plan_is_wrapped op schema version migrations plan :
  run op schema version migrations = Ok plan ->
  exists ms statements target,
    migrations_or_getAll schema migrations = Ok ms /\
    hop ms version op statements target /\
    plan = locked schema
             (assertMigration schema target :: statements ++ [setVersion schema target]).
Proof.
  destruct op; unfold run, next, rollback, migrate; simpl;
    destruct (migrations_or_getAll schema migrations) as [ms|e] eqn:Hms;
    simpl; try discriminate.
  - destruct (List.find _ ms) as [m|] eqn:Hfind; [|discriminate].
    intros [= <-]. apply find_elem_of in Hfind as [Hin Hp].
    exists ms, (install m), (MigrationStore.version m).
    split_and!; [done| |done]. constructor; [done|lia].
  - destruct (List.find _ ms) as [m|] eqn:Hfind; [|discriminate].
    intros [= <-]. apply find_elem_of in Hfind as [Hin Hp].
    exists ms, (default [] (uninstall m)), (previous m).
    split_and!; [done| |done]. constructor; [done|lia].
  - destruct (assert _ _); simpl; [|discriminate].
    intros [= <-]. eexists ms, _, _. split_and!; [done|apply hop_migrate|].
    unfold flatten. by rewrite reduce_install, reduce_version.
Qed.

(** C4 (as amended) at [next] from version 19 over the entries for
    versions 20 and 19. *)
Lemma plan_is_wrapped_witness :
  run Next "pgboss" 19 (Some (chain_20_19 "pgboss"))
  = Ok (locked "pgboss"
          [ assertMigration "pgboss" 20;
            Sql "DROP INDEX pgboss.job_singletonKey";
            Sql "DROP INDEX pgboss.job_singleton_queue";
            Sql "CREATE UNIQUE INDEX job_singletonKey ON pgboss.job (name, singletonKey) WHERE state < 'completed' AND singletonOn IS NULL AND NOT singletonKey LIKE '\_\_pgboss\_\_singleton\_queue%'";
            Sql "CREATE UNIQUE INDEX job_singleton_queue ON pgboss.job (name, singletonKey) WHERE state < 'active' AND singletonOn IS NULL AND singletonKey LIKE '\_\_pgboss\_\_singleton\_queue%'";
            setVersion "pgboss" 20 ])
  /\ exists ms statements target,
      migrations_or_getAll "pgboss" (Some (chain_20_19 "pgboss")) = Ok ms /\
      hop ms 19 Next statements target /\
      locked "pgboss"
          [ assertMigration "pgboss" 20;
            Sql "DROP INDEX pgboss.job_singletonKey";
            Sql "DROP INDEX pgboss.job_singleton_queue";
            Sql "CREATE UNIQUE INDEX job_singletonKey ON pgboss.job (name, singletonKey) WHERE state < 'completed' AND singletonOn IS NULL AND NOT singletonKey LIKE '\_\_pgboss\_\_singleton\_queue%'";
            Sql "CREATE UNIQUE INDEX job_singleton_queue ON pgboss.job (name, singletonKey) WHERE state < 'active' AND singletonOn IS NULL AND singletonKey LIKE '\_\_pgboss\_\_singleton\_queue%'";
            setVersion "pgboss" 20 ]
      = locked "pgboss"
          (assertMigration "pgboss" target :: statements ++ [setVersion "pgboss" target]).
Proof.
  split; [vm_compute; reflexivity|].
  apply (plan_is_wrapped Next "pgboss" 19 (Some (chain_20_19 "pgboss"))).
  vm_compute. reflexivity.
Defined.

(** C4, as stated, fails: the hop of [next] from version 19 asserts with
    the version it ends at, 20, not the version it starts from; and the hop
    of [rollback] from version 21, which also ends at 20, begins with the
    very same assertion. *)
Lemma the_assertion_names_the_target_version :
  exists m,
    chain_20_19 "pgboss" !! 0%nat = Some m /\
    previous m = 19 /\ version m = 20 /\
    next "pgboss" 19 (Some (chain_20_19 "pgboss"))
    = Ok (locked "pgboss"
            (assertMigration "pgboss" 20 :: install m ++ [setVersion "pgboss" 20])) /\
    next "pgboss" 19 (Some (chain_20_19 "pgboss"))
    <> Ok (wrapped_from_source "pgboss" (install m) 19 20) /\
    rollback "pgboss" 21 (Some (a_migration_21 :: chain_20_19 "pgboss"))
    = Ok (locked "pgboss"
            (assertMigration "pgboss" 20
               :: default [] (uninstall a_migration_21) ++ [setVersion "pgboss" 20])).
Proof.
  eexists. split; [vm_compute; reflexivity|].
  split_and!; [done|done|vm_compute; reflexivity| |vm_compute; reflexivity].
  vm_compute. intros [=].
Qed.

Lemma last_map {A B} (f : A -> B) (l : list A) :
  last (map f l) = f <$> last l.
Proof.
  induction l as [|x l IH] using rev_ind; [done|].
  rewrite map_app. simpl. by rewrite !last_snoc.
Qed.

Lemma sorted_last_is_top (l : list migration) top :
  StronglySorted version_le l -> last l = Some top ->
  forall m, m ∈ l -> version m <= version top.
Proof.
  induction 1 as [|x l Hl IH Hx]; [done|].
  intros Hlast m Hm. destruct l as [|y l'].
  - simpl in Hlast. injection Hlast as <-. apply list_elem_of_singleton in Hm as ->. lia.
  - change (last (y :: l') = Some top) in Hlast.
    apply elem_of_cons in Hm as [->|Hm]; [|by apply IH].
    apply last_Some_elem_of in Hlast.
    rewrite Forall_forall in Hx. by apply Hx.
Qed.

Lemma selected_elem_of fromVersion ms m :
  m ∈ selected fromVersion ms <-> m ∈ ms /\ fromVersion <= previous m.
Proof.
  unfold selected. rewrite sort_by_version_perm.
  rewrite !list_elem_of_In, filter_In. 
  destruct (Z.geb_spec (previous m) fromVersion); intuition (try lia; try discriminate).
Qed.

(** C5: for a given list of migrations, [migrate] selects exactly those
    whose [previous] is at least [fromVersion] (each as often as the list has
    it), orders them by ascending [version] (entries of one version in the
    order of the list), concatenates their [install] statements in that
    order and wraps them for the highest selected version; when the
    concatenation is empty, as it is when no migration qualifies, it throws
    the assertion error "Version ... not found." instead. *)
Theorem migrate_selects_sorts_concatenates value fromVersion ms :
  let schema := match value with inl s => s | inr c => schema c end in
  let qualifies := fun i => previous i >=? fromVersion in
  let sel := selected fromVersion ms in
  (forall m, m ∈ sel <-> m ∈ ms /\ fromVersion <= previous m) /\
  sel ≡ₚ List.filter qualifies ms /\
  StronglySorted version_le sel /\
  (forall v, List.filter (fun i => version i =? v) sel
             = List.filter (fun i => version i =? v) (List.filter qualifies ms)) /\
  match concat (map install sel) with
  | [] =>
      migrate value fromVersion (Some ms)
      = Throw (VError "AssertionError"
                 ("Version " +:+ number_to_string fromVersion +:+ " not found."))
  | statements =>
      exists top,
        last sel = Some top /\
        (forall m, m ∈ sel -> version m <= version top) /\
        migrate value fromVersion (Some ms)
        = Ok (locked schema
                (assertMigration schema (version top)
                   :: statements ++ [setVersion schema (version top)]))
  end /\
  (List.filter qualifies ms = [] ->
   migrate value fromVersion (Some ms)
   = Throw (VError "AssertionError"
              ("Version " +:+ number_to_string fromVersion +:+ " not found."))).
Proof.
  intros schema qualifies sel.
  assert (Hsorted : StronglySorted version_le sel) by apply sort_by_version_sorted.
  assert (Hmig : migrate value fromVersion (Some ms)
    = (_ ← assert (0 <? Z.of_nat (length (concat (map install sel))))
                 (not_found fromVersion);
       Ok (flatten schema (concat (map install sel))
             (default fromVersion (last (map version sel)))))).
  { unfold migrate. simpl. fold sel schema.
    by rewrite reduce_install, reduce_version. }
  split_and!.
  - apply selected_elem_of.
  - apply sort_by_version_perm.
  - done.
  - intros v. apply sort_by_version_stable.
  - rewrite Hmig. destruct (concat (map install sel)) as [|c cs] eqn:Hc; [done|].
    destruct (last sel) as [top|] eqn:Hlast.
    + exists top. split_and!; [done|by apply sorted_last_is_top|].
      rewrite last_map, Hlast. simpl. done.
    + apply last_None in Hlast. rewrite Hlast in Hc. discriminate.
  - intros Hnone. rewrite Hmig. subst sel. unfold selected. fold qualifies.
    by rewrite Hnone.
Qed.

(** C5 at a chain 21, 20, 19: from version 18 all three are applied, oldest
    first, up to 21; from version 21 nothing qualifies. *)
Lemma migrate_selects_sorts_concatenates_witness :
  migrate (inl "pgboss") 18 (Some (a_migration_21 :: chain_20_19 "pgboss"))
  = Ok (locked "pgboss"
          (assertMigration "pgboss" 21
             :: concat (map install (reverse (a_migration_21 :: chain_20_19 "pgboss")))
             ++ [setVersion "pgboss" 21])) /\
  migrate (inl "pgboss") 21 (Some (a_migration_21 :: chain_20_19 "pgboss"))
  = Throw (VError "AssertionError" "Version 21 not found.").
Proof.
  split.
  - destruct (migrate_selects_sorts_concatenates (inl "pgboss") 18
                (a_migration_21 :: chain_20_19 "pgboss"))
      as (_ & _ & _ & _ & Hplan & _).
    vm_compute in Hplan. destruct Hplan as (top & [= <-] & _ & Hplan).
    vm_compute. exact Hplan.
  - apply (migrate_selects_sorts_concatenates (inl "pgboss") 21
             (a_migration_21 :: chain_20_19 "pgboss")).
    reflexivity.
Defined.

(** C6: the code departs from the claim.  For every schema [getAll]
    throws a TypeError: in the [install] array of version 21 the statement
    creating the index [job_name] is followed by the next template literal
    with no comma in between, so it is applied to it as a tag, and a string
    is not a function. *)
Theorem getAll_throws schema :
  getAll schema
  = Throw (VTypeError (NotAFunction
      ("CREATE INDEX job_name ON " +:+ schema +:+ ".job (name text_pattern_ops)"))).
Proof. reflexivity. Qed.

End MigrationStoreFacts.

(** * Facts about the manager *)

Section ManagerFacts.
Import Manager ManagerSpec.
Context {W : Type}.
Context `{!Attorney W, !Serializer, !Timekeeper, !Crypto, !WorkerClass}.
Implicit Types m : manager W.

(** ** Running a sequence *)

Lemma run_bind {A B} (c : M W A) (k : A -> M W B) m :
  (c ≫= k) m
  = match c m with
    | (Ok a, m') => k a m'
    | (Throw e, m') => (Throw e, m')
    end.
Proof. reflexivity. Qed.

Lemma run_bind_ok {A B} (c : M W A) (k : A -> M W B) m a m' :
  c m = (Ok a, m') -> (c ≫= k) m = k a m'.
Proof. intros Hc. by rewrite run_bind, Hc. Qed.

Ltac run := repeat first [rewrite run_bind | progress cbn [this] | progress cbv zeta].

Lemma run_bind_throw {A B} (c : M W A) (k : A -> M W B) m e m' :
  c m = (Throw e, m') -> (c ≫= k) m = (Throw e, m').
Proof. intros Hc. by rewrite run_bind, Hc. Qed.

(** ** What a method leaves alone *)

Lemma keeps_ret {A B} (proj : manager W -> B) (a : A) : keeps proj (mret a).
Proof. done. Qed.

Lemma keeps_throw {A B} (proj : manager W -> B) e : keeps proj (throw (A:=A) e).
Proof. done. Qed.

Lemma keeps_lift {A B} (proj : manager W -> B) (r : result A) : keeps proj (lift r).
Proof. done. Qed.

Lemma keeps_this {B} (proj : manager W -> B) : keeps proj this.
Proof. done. Qed.

Lemma keeps_bind {A A' B} (proj : manager W -> B) (c : M W A) (k : A -> M W A') :
  keeps proj c -> (forall a, keeps proj (k a)) -> keeps proj (c ≫= k).
Proof.
  intros Hc Hk m. rewrite run_bind. specialize (Hc m).
  destruct (c m) as [[a|e] m']; simpl in *; [|done].
  by rewrite Hk.
Qed.

Lemma keeps_modify {B} (proj : manager W -> B) f :
  (forall m, proj (f m) = proj m) -> keeps proj (modify f).
Proof. intros Hf m. apply Hf. Qed.

Lemma keeps_try_catch {A B} (proj : manager W -> B) (c : M W A) h :
  keeps proj c -> (forall e, keeps proj (h e)) -> keeps proj (try_catch c h).
Proof.
  intros Hc Hh m. unfold try_catch. specialize (Hc m).
  destruct (c m) as [[a|e] m']; simpl in *; [done|].
  by rewrite Hh.
Qed.

Lemma keeps_detached {A B} (proj : manager W -> B) (c : M W A) :
  (forall es m, proj (set_unhandled es m) = proj m) ->
  keeps proj c -> keeps proj (detached c).
Proof.
  intros Hp Hc m. unfold detached. specialize (Hc m).
  destruct (c m) as [[a|e] m']; simpl in *; [done|]. by rewrite Hp.
Qed.

Lemma keeps_for_of {A B} (proj : manager W -> B) (l : list A) body :
  (forall x, keeps proj (body x)) -> keeps proj (for_of l body).
Proof.
  intros Hb. induction l as [|x l IH]; [done|].
  simpl. apply keeps_bind; [apply Hb|done].
Qed.

Lemma keeps_emit {B} (proj : manager W -> B) e :
  (forall es m, proj (set_emitted es m) = proj m) -> keeps proj (emit e).
Proof.
  intros Hp. unfold emit.
  apply keeps_bind; [by apply keeps_modify|intros _].
  apply keeps_bind; [apply keeps_this|intros m].
  destruct (listeners m (event_name e)) as [|l ls]; [by destruct e|].
  apply keeps_bind; [|done].
  apply keeps_for_of. intros l'. apply keeps_lift.
Qed.

Lemma keeps_executeSql {R B} (proj : manager W -> B) d (q : sql R) values :
  (forall w m, proj (set_world w m) = proj m) -> keeps proj (executeSql d q values).
Proof.
  intros Hp m. unfold executeSql. destruct (d R q values (world m)). apply Hp.
Qed.

Ltac untouched :=
  intros; cbv beta;
  first [ reflexivity
        | apply untouched_world | apply untouched_queues | apply untouched_workers
        | apply untouched_wipTs | apply untouched_uuids | apply untouched_emitted
        | apply untouched_immediates | apply untouched_unhandled ].

Ltac keeps_step :=
  lazymatch goal with
  | |- keeps _ (mbind _ _) => apply keeps_bind; [|intros ?]
  | |- keeps _ (mret _) => apply keeps_ret
  | |- keeps _ (throw _) => apply keeps_throw
  | |- keeps _ (lift _) => apply keeps_lift
  | |- keeps _ this => apply keeps_this
  | |- keeps _ Date_now => apply keeps_this
  | |- keeps _ (modify _) => apply keeps_modify; untouched
  | |- keeps _ (emit _) => apply keeps_emit; untouched
  | |- keeps _ randomUUID => intros ?; unfold randomUUID; untouched
  | |- keeps _ (try_catch _ _) => apply keeps_try_catch; [|intros ?]
  | |- keeps _ (detached _) => apply keeps_detached; [untouched|]
  | |- keeps _ (for_of _ _) => apply keeps_for_of; intros ?
  | |- keeps _ (executeSql _ _ _) => apply keeps_executeSql; untouched
  | |- keeps _ (match ?x with _ => _ end) => destruct x
  | |- keeps _ (let _ := _ in _) => cbv zeta
  end.

Section Keeps.
Context {B : Type} (proj : manager W -> B) `{!Untouched proj}.

Lemma getQueues_keeps names : keeps proj (getQueues names).
Proof. unfold getQueues. repeat keeps_step. Qed.

Lemma getQueue_keeps name : keeps proj (getQueue name).
Proof. unfold getQueue. repeat keeps_step. Qed.

Lemma getQueueCache_keeps name : keeps proj (getQueueCache name).
Proof. unfold getQueueCache. repeat first [apply getQueue_keeps | keeps_step]. Qed.

Lemma onCacheQueues_keeps : keeps proj onCacheQueues.
Proof. unfold onCacheQueues. repeat first [apply getQueues_keeps | keeps_step]. Qed.

Lemma getWipData_keeps b : keeps proj (getWipData b).
Proof. unfold getWipData, getWorkers. repeat keeps_step. Qed.

Lemma emitWip_keeps name : keeps proj (emitWip name).
Proof. unfold emitWip. repeat first [apply getWipData_keeps | keeps_step]. Qed.

Lemma complete_keeps name id data odb : keeps proj (complete name id data odb).
Proof. unfold complete. repeat first [apply getQueueCache_keeps | keeps_step]. Qed.

Lemma fail_keeps name id data odb : keeps proj (fail name id data odb).
Proof. unfold fail. repeat first [apply getQueueCache_keeps | keeps_step]. Qed.

Lemma fetch_keeps name options : keeps proj (fetch name options).
Proof. unfold fetch. repeat first [apply getQueueCache_keeps | keeps_step]. Qed.

Lemma createJob_depth_keeps depth name data options offset :
  keeps proj (createJob_depth depth name data options offset).
Proof.
  revert options offset. induction depth as [|depth IH]; intros options offset; simpl.
  - keeps_step.
  - unfold getDebounceStartAfter.
    repeat first [apply getQueueCache_keeps | apply IH | keeps_step].
Qed.

Lemma send_keeps args : keeps proj (send args).
Proof. unfold send, createJob. repeat first [apply createJob_depth_keeps | keeps_step]. Qed.

Lemma sendAfter_keeps name data options after :
  keeps proj (sendAfter name data options after).
Proof. unfold sendAfter, createJob. repeat first [apply createJob_depth_keeps | keeps_step]. Qed.

Lemma sendThrottled_keeps name data options seconds key :
  keeps proj (sendThrottled name data options seconds key).
Proof.
  unfold sendThrottled, createJob. repeat first [apply createJob_depth_keeps | keeps_step].
Qed.

Lemma sendDebounced_keeps name data options seconds key :
  keeps proj (sendDebounced name data options seconds key).
Proof.
  unfold sendDebounced, createJob. repeat first [apply createJob_depth_keeps | keeps_step].
Qed.

Lemma watch_keeps name options callback : keeps proj (watch name options callback).
Proof. unfold watch, addWorker. repeat keeps_step. Qed.

Lemma work_keeps name args : keeps proj (work name args).
Proof. unfold work. repeat first [apply watch_keeps | keeps_step]. Qed.

Lemma offWork_keeps value : keeps proj (offWork value).
Proof. unfold offWork, assert. repeat keeps_step. Qed.

Lemma offWork_immediate_keeps keys : keeps proj (offWork_immediate keys).
Proof. unfold offWork_immediate, removeWorker. repeat keeps_step. Qed.

Lemma notifyWorker_keeps workerId : keeps proj (notifyWorker workerId).
Proof. unfold notifyWorker. repeat keeps_step. Qed.

Lemma failWip_keeps : keeps proj failWip.
Proof. unfold failWip. repeat first [apply fail_keeps | keeps_step]. Qed.

End Keeps.

Lemma onFetch_keeps_stopped name callback jobs :
  keeps stopped (onFetch name callback jobs).
Proof.
  unfold onFetch, await_resolveWithinSeconds.
  repeat first [apply emitWip_keeps | apply complete_keeps | apply fail_keeps
               | apply untouched_stopped | keeps_step].
Qed.


(** ** The queue cache *)


Lemma cache_get_own (cache : gmap string queue) name q :
  cache !! name = Some q -> cache_get cache name = Row q.
Proof. intros Hc. unfold cache_get. by rewrite Hc. Qed.

Lemma getQueueCache_hit m name cache q :
  queues m = Some cache -> cache !! name = Some q ->
  getQueueCache name m = (Ok (Row q), m).
Proof.
  intros Hq Hc. unfold getQueueCache. rewrite run_bind. simpl.
  by rewrite Hq, (cache_get_own _ _ _ Hc).
Qed.


(** ** fetch *)

(** C8 (as amended): when the arguments pass [checkFetchArgs], an error
    thrown by the [fetchNextJob] query itself is swallowed and [fetch]
    returns the empty batch; an error thrown while the queue is looked up
    (the database query made on a cache miss included) is thrown to the
    caller of [fetch]. *)
Theorem fetch_swallows_the_query_error m name options :
  checkFetchArgs name options = Ok tt ->
  (forall q m1 e w,
     getQueueCache name m = (Ok q, m1) ->
     default (db m) (fetch_db options) job
       (plans.fetchNextJob
          {| arg_batchSize := fetch_batchSize options;
             arg_includeMetadata := fetch_includeMetadata options;
             arg_priority := fetch_priority options;
             arg_schema := schema (mgr_config m);
             arg_table := table_of q;
             arg_name := name;
             arg_limit := fetch_batchSize options |})
       None (world m1) = (Throw e, w) ->
     fetch name options m = (Ok [], set_world w m1)) /\
  (forall e m1,
     getQueueCache name m = (Throw e, m1) ->
     fetch name options m = (Throw e, m1)).
Proof.
  intros Hargs. split.
  - intros q m1 e w Hcache Hdb. unfold fetch.
    pose proof (getQueueCache_keeps mgr_config name m) as Hconfig.
    rewrite Hcache in Hconfig. simpl in Hconfig. rewrite <- Hconfig in Hdb.
    rewrite run_bind. unfold lift at 1. rewrite Hargs.
    rewrite run_bind. simpl.
    rewrite (run_bind_ok _ _ _ _ _ Hcache).
    rewrite run_bind. simpl. rewrite run_bind.
    unfold try_catch. rewrite run_bind. unfold executeSql at 1.
    by rewrite Hdb.
  - intros e m1 Hcache. unfold fetch.
    rewrite run_bind. unfold lift at 1. rewrite Hargs.
    rewrite run_bind. simpl.
    by rewrite (run_bind_throw _ _ _ _ _ Hcache).
Qed.

(** ** createJob and the send variants *)

Lemma insert_values_attempt name data (options : sendOptions W) offset :
  insert_values name data options offset
  = attempt name data options (startAfter options) offset.
Proof.
  unfold insert_values, attempt, default_null, optional_number.
  by destruct (opt_id options), (singletonKey options), (singletonSeconds options).
Qed.

Lemma createJob_depth_first depth m name data options offset q m1 rows w :
  getQueueCache name m = (Ok q, m1) ->
  default (db m) (opt_db options) inserted
    (plans.insertJob (schema (mgr_config m1)) (table_of q))
    (Some (attempt name data options (startAfter options)
             (default_parameter offset (VNum 0)))) (world m1) = (Ok rows, w) ->
  createJob_depth (S depth) name data options offset m
  = match rows with
    | [row] => (Ok (Some (inserted_id row)), set_world w m1)
    | _ =>
        if negb (singletonNextSlot options) then (Ok None, set_world w m1)
        else
          createJob_depth depth name data
            (with_startAfter options
               (VNum (debounceStartAfter (singletonSeconds options) (clockSkew m1) (clock m1)))
               false)
            (optional_number (singletonSeconds options)) (set_world w m1)
    end.
Proof.
  intros Hcache Hdb. rewrite <- insert_values_attempt in Hdb. cbn [createJob_depth].
  rewrite run_bind. simpl.
  rewrite (run_bind_ok _ _ _ _ _ Hcache).
  rewrite run_bind. simpl. rewrite run_bind. unfold executeSql at 1. rewrite Hdb.
  destruct rows as [|row [|row' rows]]; try done;
    destruct (singletonNextSlot options); done.
Qed.

Lemma createJob_depth_last depth m name data options offset :
  singletonNextSlot options = false ->
  createJob_depth (S depth) name data options offset m
  = createJob_depth 1 name data options offset m.
Proof.
  intros Hslot. cbn [createJob_depth].
  run. destruct (getQueueCache name m) as [[q|e] m1]; [|done].
  run. destruct (executeSql _ _ _ m1) as [[rows|e] m2]; [|done].
  rewrite Hslot. by destruct rows as [|row [|row' rows]].
Qed.

(** The nesting bound of [createJob] is never reached: a deeper bound
    changes nothing. *)
Lemma createJob_depth_enough depth m name data options offset :
  createJob_depth (S (S depth)) name data options offset m
  = createJob name data options offset m.
Proof.
  unfold createJob.
  change (createJob_depth (S (S depth)) name data options offset m)
    with ((m0 ← this;
           let db := default (db m0) (opt_db options) in
           q ← getQueueCache name;
           m1 ← this;
           rows ← executeSql db (plans.insertJob (schema (mgr_config m1)) (table_of q))
                    (Some (insert_values name data options
                             (default_parameter offset (VNum 0))));
           match rows with
           | [row] => mret (Some (inserted_id row))
           | _ =>
               if negb (singletonNextSlot options) then mret None
               else
                 m2 ← this;
                 startAfter ← getDebounceStartAfter (singletonSeconds options) (clockSkew m2);
                 createJob_depth (S depth) name data
                   (with_startAfter options (VNum startAfter) false)
                   (optional_number (singletonSeconds options))
           end) m).
  change (createJob_depth 2 name data options offset m)
    with ((m0 ← this;
           let db := default (db m0) (opt_db options) in
           q ← getQueueCache name;
           m1 ← this;
           rows ← executeSql db (plans.insertJob (schema (mgr_config m1)) (table_of q))
                    (Some (insert_values name data options
                             (default_parameter offset (VNum 0))));
           match rows with
           | [row] => mret (Some (inserted_id row))
           | _ =>
               if negb (singletonNextSlot options) then mret None
               else
                 m2 ← this;
                 startAfter ← getDebounceStartAfter (singletonSeconds options) (clockSkew m2);
                 createJob_depth 1 name data
                   (with_startAfter options (VNum startAfter) false)
                   (optional_number (singletonSeconds options))
           end) m).
  run. destruct (getQueueCache name m) as [[q|e] m1]; [|done].
  run. destruct (executeSql _ _ _ m1) as [[rows|e] m2]; [|done].
  assert (Hretry : forall m3 startAfter,
    createJob_depth (S depth) name data
      (with_startAfter options (VNum startAfter) false)
      (optional_number (singletonSeconds options)) m3
    = createJob_depth 1 name data
      (with_startAfter options (VNum startAfter) false)
      (optional_number (singletonSeconds options)) m3).
  { intros. by apply createJob_depth_last. }
  destruct rows as [|row [|row' rows]]; try done;
    destruct (singletonNextSlot options); try done;
    cbn [negb]; unfold getDebounceStartAfter; run; cbn [Date_now]; run;
    apply Hretry.
Qed.

(** C3: when the attorney accepts the arguments and hands the
    [singletonNextSlot] setting on as [sendThrottled] made it, and the queue
    is found, an insert that returns no row makes [sendThrottled] return
    [null] with nothing thrown, the database left as that one insert left
    it, whatever [singletonNextSlot] the caller's options had; an insert
    that returns one row makes it return that row's id.  The one insert is
    made with the values of a first attempt. *)
Theorem sendThrottled_drops_a_collision m name data options seconds key
    name' data' options' q m1 rows w :
  let given := with_singleton (default no_options options) seconds false key in
  checkSendArgs (name, data, Some given) (mgr_config m) = Ok (name', data', options') ->
  singletonNextSlot options' = singletonNextSlot given ->
  getQueueCache name' m = (Ok q, m1) ->
  default (db m) (opt_db options') inserted
    (plans.insertJob (schema (mgr_config m)) (table_of q))
    (Some (attempt name' data' options' (startAfter options') (VNum 0))) (world m1)
    = (Ok rows, w) ->
  (rows = [] ->
   sendThrottled name data options seconds key m = (Ok None, set_world w m1)) /\
  (forall row, rows = [row] ->
   sendThrottled name data options seconds key m
   = (Ok (Some (inserted_id row)), set_world w m1)).
Proof.
  intros given Hargs Hslot Hcache Hdb. subst given. cbn [with_singleton singletonNextSlot] in Hslot.
  assert (Hrun : sendThrottled name data options seconds key m
                 = createJob name' data' options' VUndefined m).
  { unfold sendThrottled. rewrite run_bind. simpl.
    rewrite run_bind. unfold lift at 1. by rewrite Hargs. }
  pose proof (getQueueCache_keeps mgr_config name' m) as Hconfig.
  rewrite Hcache in Hconfig. simpl in Hconfig. rewrite <- Hconfig in Hdb.
  rewrite Hrun. unfold createJob.
  rewrite (createJob_depth_first _ _ _ _ _ VUndefined _ _ _ _ Hcache Hdb), Hslot.
  split; [by intros ->|by intros row ->].
Qed.




(** ** The worker's batch handling *)



Lemma maxExpiration_batch_max (jobs : list job) :
  fold_left (fun acc i => Z.max acc (expireInSeconds i)) jobs 0 = batch_max jobs.
Proof.
  unfold batch_max.
  assert (Hgen : forall a, 0 <= a ->
    fold_left (fun acc i => Z.max acc (expireInSeconds i)) jobs a
    = Z.max a (foldr Z.max 0 (map expireInSeconds jobs))).
  { induction jobs as [|j jobs IH]; intros a Ha; simpl.
    - lia.
    - rewrite IH; lia. }
  rewrite Hgen by done.
  assert (0 <= foldr Z.max 0 (map expireInSeconds jobs)); [|lia].
  clear. induction jobs; simpl; lia.
Qed.

Lemma deadline_is_largest (jobs : list job) :
  1 <= deadline jobs /\
  Forall (fun j => expireInSeconds j <= deadline jobs) jobs /\
  (deadline jobs = 1 \/ exists j, j ∈ jobs /\ expireInSeconds j = deadline jobs).
Proof.
  unfold deadline, batch_max. split_and!; [lia| |].
  - induction jobs as [|j jobs IH]; constructor; simpl; [lia|].
    eapply Forall_impl; [exact IH|]. simpl. intros; lia.
  - induction jobs as [|j jobs IH]; simpl; [left; lia|].
    destruct IH as [IH|(j' & Hin & IH)].
    + destruct (Z.max_spec (expireInSeconds j) (foldr Z.max 0 (map expireInSeconds jobs)))
        as [[? Hm]|[? Hm]]; rewrite Hm.
      * by left.
      * destruct (Z.le_gt_cases (expireInSeconds j) 1); [left; lia|].
        right. exists j. split; [left|lia].
    + destruct (Z.max_spec (expireInSeconds j) (foldr Z.max 0 (map expireInSeconds jobs)))
        as [[? Hm]|[? Hm]]; rewrite Hm.
      * right. exists j'. split; [by right|done].
      * destruct (Z.le_gt_cases (expireInSeconds j) 1); [left; lia|].
        right. exists j. split; [left|lia].
Qed.

(** C1 (as amended): for every non-empty batch, the test hook
    [__test__throw_worker] being off, the worker races the handler against
    a timer whose deadline in seconds is the largest of 1 and the
    [expireInSeconds] of the batch.  When the timer wins (the handler
    settles later than the deadline, or never) the batch is failed with the
    error "handler execution exceeded Nms", N the deadline in milliseconds;
    when the handler wins by fulfilling, the batch is completed with its
    value as output for a batch of one and [undefined] otherwise; when the
    handler throws or rejects in time, the batch is failed with its error.
    A wip emission is attempted before and after. *)
Theorem onFetch_races_the_handler m name callback jobs :
  jobs <> [] ->
  __test__throw_worker (mgr_config m) = false ->
  onFetch name callback jobs m = batch_handling (deadline jobs) name callback jobs m /\
  1 <= deadline jobs /\
  Forall (fun j => expireInSeconds j <= deadline jobs) jobs /\
  (deadline jobs = 1 \/ exists j, j ∈ jobs /\ expireInSeconds j = deadline jobs).
Proof.
  intros Hjobs Hhook. split; [|apply deadline_is_largest].
  unfold onFetch, batch_handling.
  destruct jobs as [|j jobs]; [done|]. cbn [length Nat.eqb].
  rewrite run_bind. cbn [this]. rewrite Hhook.
  rewrite !run_bind. destruct (emitWip name m) as [[[]|e] m1]; [|done].
  rewrite maxExpiration_batch_max. fold (batch_ids (j :: jobs)).
  assert (Hone : forall v : value,
    (if Nat.eqb (length (map (fun job : job => VStr (id job)) (j :: jobs))) 1
     then v else VUndefined)
    = match j :: jobs with [_] => v | _ => VUndefined end).
  { intros v. by destruct jobs. }
  unfold deadline, try_catch, await_resolveWithinSeconds, resolveWithinSeconds,
    Promise_race, delay, timeout_message.
  destruct (callback (j :: jobs)) as [e|[[t [v|e]]|]]; cbn [fst snd];
    try destruct (t <=? Z.max 1 (batch_max (j :: jobs)) * 1000);
    rewrite !run_bind; cbn [modify lift fst snd]; rewrite ?Hone; try reflexivity.
  unfold detached. by destruct (complete _ _ _ _ _) as [[r|e] m2].
Qed.

(** ** complete *)

Lemma mapCompletionDataArg_stored data :
  mapCompletionDataArg data = stored_output data.
Proof. by destruct data. Qed.

(** C7 (as amended): for a valid queue name, a valid id and a cached
    queue, [complete] sends the [completeJobs] statement once, and its third
    parameter is [null] when [data] is [null], [undefined] or a function,
    the serialised [data] when it is an object that is not an array, and
    the serialised [{ value: data }] for every other value, arrays
    included. *)
Theorem complete_stores_output m name id data options_db ids cache q :
  assertQueueName name = Ok tt ->
  mapCompletionIdArg id "complete" = Ok ids ->
  queues m = Some cache -> cache !! name = Some q ->
  complete name id data options_db m
  = let '(rows, w) :=
      default (db m) options_db counted
        (plans.completeJobs (schema (mgr_config m)) (VStr (table q)))
        (Some [VStr name; VArray ids; stored_output data]) (world m) in
    (rows ≫= mapCommandResponse ids, set_world w m).
Proof.
  intros Hname Hids Hq Hc. unfold complete.
  rewrite run_bind. unfold lift at 1. rewrite Hname.
  rewrite run_bind. cbn [this].
  rewrite run_bind. unfold lift at 1. rewrite Hids.
  rewrite (run_bind_ok _ _ _ _ _ (getQueueCache_hit _ _ _ _ Hq Hc)).
  rewrite !run_bind. cbn [this]. rewrite !run_bind. unfold executeSql, lift.
  rewrite mapCompletionDataArg_stored.
  by destruct (default (db m) options_db counted _ _ _) as [[rows|e] w].
Qed.

(** ** Workers *)

(** C10: for a [workerId] the registry does not hold, [notifyWorker]
    returns without throwing and leaves the manager, its registry and every
    registered worker included, as it was. *)
Theorem notifyWorker_unknown_worker m workerId :
  JSMap.has (workers m) workerId = false ->
  notifyWorker workerId m = (Ok tt, m).
Proof.
  intros Hhas. unfold notifyWorker. rewrite run_bind. cbn [this]. by rewrite Hhas.
Qed.

(** ** stop *)

Lemma stop_sets_stopped m : stopped (stop m).2 = true.
Proof.
  unfold stop. rewrite run_bind. cbn [modify].
  match goal with
  | |- stopped (?rest (set_stopped true m)).2 = true =>
      assert (Hrest : keeps stopped rest)
  end.
  { repeat first [apply offWork_keeps | apply untouched_stopped | keeps_step]. }
  by rewrite Hrest.
Qed.

Lemma perform_keeps_stopped c m : stopped m = true -> stopped (perform c m) = true.
Proof.
  intros Hm. destruct c; simpl; try apply stop_sets_stopped; rewrite <- Hm.
  - apply send_keeps, _.
  - apply sendAfter_keeps, _.
  - apply sendThrottled_keeps, _.
  - apply sendDebounced_keeps, _.
  - apply fetch_keeps, _.
  - apply complete_keeps, _.
  - apply fail_keeps, _.
  - apply work_keeps, _.
  - apply offWork_keeps, _.
  - apply notifyWorker_keeps, _.
  - apply failWip_keeps, _.
  - apply getQueues_keeps, _.
  - apply getQueue_keeps, _.
  - apply onFetch_keeps_stopped.
  - apply offWork_immediate_keeps, _.
  - apply onCacheQueues_keeps, _.
Qed.

Lemma perform_all_keeps_stopped cs m :
  stopped m = true -> stopped (perform_all cs m) = true.
Proof.
  unfold perform_all. revert m. induction cs as [|c cs IH]; intros m Hm; [done|].
  simpl. by apply IH, perform_keeps_stopped.
Qed.

Lemma work_when_stopped m name args :
  stopped m = true ->
  exists e,
    work name args m = (Throw e, m) /\
    forall options callback,
      checkWorkArgs name args (mgr_config m) = Ok (options, callback) ->
      e = Error "Workers are disabled. pg-boss is stopped".
Proof.
  intros Hm. unfold work. rewrite run_bind. cbn [this].
  rewrite run_bind. unfold lift at 1.
  destruct (checkWorkArgs name args (mgr_config m)) as [[options callback]|e].
  - unfold watch. rewrite run_bind. cbn [this]. rewrite Hm.
    eexists. split; [done|]. by intros ? ? _.
  - exists e. split; [done|]. by intros ? ? [=].
Qed.

(** C9 (as amended): once [stop] has been called, and whatever calls other
    than [start] follow, every call of [work] throws and changes nothing:
    the validation error of [checkWorkArgs] when the arguments do not pass
    it, the error "Workers are disabled. pg-boss is stopped" when they do.
    (The send operations do not consult the stopped flag.) *)
Theorem work_after_stop_fails m calls name args :
  let m' := perform_all calls (stop m).2 in
  exists e,
    work name args m' = (Throw e, m') /\
    forall options callback,
      checkWorkArgs name args (mgr_config m') = Ok (options, callback) ->
      e = Error "Workers are disabled. pg-boss is stopped".
Proof.
  intros m'. apply work_when_stopped, perform_all_keeps_stopped, stop_sets_stopped.
Qed.

End ManagerFacts.

(** * The theorems at concrete inputs *)

Section Examples.
Import Manager ManagerSpec Fixture.

(** C10 at a manager with one worker, "uuid-0", notified as "uuid-7". *)
Lemma notifyWorker_unknown_worker_witness :
  JSMap.has (workers a_manager_with_a_worker) "uuid-7" = false /\
  notifyWorker "uuid-7" a_manager_with_a_worker = (Ok tt, a_manager_with_a_worker).
Proof.
  split; [reflexivity|].
  apply (notifyWorker_unknown_worker a_manager_with_a_worker "uuid-7").
  reflexivity.
Defined.

(** C3 at a database where every insert collides, the caller's options
    asking for the next slot: one insert is recorded, and its values are
    those [sendThrottled] set. *)
Lemma sendThrottled_drops_a_collision_witness :
  sendThrottled "q" (VObject []) (Some keen) (Some 60) (VStr "k") colliding
  = (Ok None,
     set_world [an_insert VUndefined (VStr "k") (VNum 60) (VNum 0)] colliding).
Proof.
  refine (proj1 (sendThrottled_drops_a_collision colliding "q" (VObject []) (Some keen)
                   (Some 60) (VStr "k") "q" (VObject []) throttled (Row the_queue)
                   colliding [] [an_insert VUndefined (VStr "k") (VNum 60) (VNum 0)]
                   _ _ _ _) eq_refl);
    reflexivity.
Defined.



(** C1 (as amended) at a handler that never settles, for a batch of two,
    and at one that fulfils with 7 after 500 ms, for a batch of one. *)
Lemma onFetch_races_the_handler_witness :
  deadline [a_job 2; a_job 5] = 5 /\
  world (onFetch "q" never_settles [a_job 2; a_job 5] healthy).2
  = [a_report "failJobsById" ["job-0"; "job-0"]
       (Error "handler execution exceeded 5000ms")] /\
  world (onFetch "q" settles_with_7 [a_job 900] healthy).2
  = [a_report "completeJobs" ["job-0"] (VObject [("value", VNum 7)])].
Proof.
  destruct (onFetch_races_the_handler healthy "q" never_settles [a_job 2; a_job 5])
    as [Hlate _]; [done|reflexivity|].
  destruct (onFetch_races_the_handler healthy "q" settles_with_7 [a_job 900])
    as [Hsoon _]; [done|reflexivity|].
  rewrite Hlate, Hsoon. split_and!; reflexivity.
Defined.

(** C1, as stated, fails: for a batch of one job whose [expireInSeconds]
    is 0 the largest [expireInSeconds] is 0, yet the timer is one of 1000 ms
    and the batch is failed with "handler execution exceeded 1000ms". *)
Lemma onFetch_waits_at_least_a_second :
  batch_max [a_job 0] = 0 /\
  world (onFetch "q" never_settles [a_job 0] healthy).2
  = [a_report "failJobsById" ["job-0"] (Error "handler execution exceeded 1000ms")] /\
  world (batch_handling (batch_max [a_job 0]) "q" never_settles [a_job 0] healthy).2
  = [a_report "failJobsById" ["job-0"] (Error "handler execution exceeded 0ms")] /\
  onFetch "q" never_settles [a_job 0] healthy
  <> batch_handling (batch_max [a_job 0]) "q" never_settles [a_job 0] healthy.
Proof.
  split_and!; [reflexivity..|].
  intros Heq. apply (f_equal (fun r => world r.2)) in Heq.
  vm_compute in Heq. discriminate Heq.
Qed.

(** C7 (as amended) at the number 7: the output sent is [{ value: 7 }]. *)
Lemma complete_stores_output_witness :
  complete "q" (VStr "job-0") (VNum 7) None healthy
  = (Ok {| response_jobs := [VStr "job-0"]; requested := 1; affected := 1 |},
     set_world [a_report "completeJobs" ["job-0"] (VObject [("value", VNum 7)])] healthy).
Proof.
  rewrite (complete_stores_output healthy "q" (VStr "job-0") (VNum 7) None
             [VStr "job-0"] {[ "q" := the_queue ]} the_queue);
    reflexivity.
Defined.

(** C7, as stated, fails: an array is an object, and it is wrapped. *)
Lemma an_array_is_not_passed_through :
  is_object (VArray [VNum 1; VNum 2]) /\
  mapCompletionDataArg (VArray [VNum 1; VNum 2])
  = VObject [("value", VArray [VNum 1; VNum 2])] /\
  mapCompletionDataArg (VArray [VNum 1; VNum 2]) <> stringify (VArray [VNum 1; VNum 2]).
Proof. split_and!; [by split|reflexivity|discriminate]. Qed.

(** C8 (as amended) at a cached queue and a database that cannot be
    reached. *)
Lemma fetch_swallows_the_query_error_witness :
  fetch "q" no_fetchOptions unreachable_cached
  = (Ok [], set_world [{| statement := "fetchNextJob"; params := [] |}] unreachable_cached).
Proof.
  refine (proj1 (fetch_swallows_the_query_error unreachable_cached "q" no_fetchOptions _)
            (Row the_queue) unreachable_cached (Error "connection refused") _ _ _);
    reflexivity.
Defined.

(** C8, as stated, fails: with the queue not cached, the error of the
    database that cannot be reached is thrown to the caller of [fetch]. *)
Lemma fetch_propagates_the_lookup_error :
  checkFetchArgs "q" no_fetchOptions = Ok tt /\
  (fetch "q" no_fetchOptions unreachable).1 = Throw (Error "connection refused") /\
  (fetch "q" no_fetchOptions unreachable).1 <> Ok [].
Proof. split_and!; [reflexivity|reflexivity|discriminate]. Qed.

(** C9 (as amended) after [stop], a [send] and a [notifyWorker]. *)
Lemma work_after_stop_fails_witness :
  (work "q" (None, Some never_settles)
     (perform_all [call_send ("q", VNum 1, None); call_notifyWorker "uuid-0"]
        (stop healthy).2)).1
  = Throw (Error "Workers are disabled. pg-boss is stopped").
Proof.
  destruct (work_after_stop_fails healthy
              [call_send ("q", VNum 1, None); call_notifyWorker "uuid-0"]
              "q" (None, Some never_settles)) as (e & Hrun & He).
  rewrite Hrun. simpl. f_equal. eapply He. reflexivity.
Defined.

(** C9, as stated, fails: after [stop] a [send] inserts the job and returns
    its id. *)
Lemma send_after_stop_inserts :
  stopped stopped_manager = true /\
  (send ("q", VNum 1, None) stopped_manager).1 = Ok (Some "job-0") /\
  world (send ("q", VNum 1, None) stopped_manager).2
  = [{| statement := "insertJob";
        params := insert_values "q" (VNum 1) (@no_options ledger) (VNum 0) |}].
Proof. split_and!; reflexivity. Qed.

End Examples.

(** * More facts about the migration store *)

Section MoreMigrationStoreFacts.
Import Plans MigrationStore MigrationSpec.

Lemma find_the_one {A} (key : A -> Z) (l : list A) (x : A) :
  NoDup (map key l) -> x ∈ l ->
  List.find (fun i => key i =? key x) l = Some x.
Proof.
  induction l as [|y l IH]; intros Hnd Hin; [by apply elem_of_nil in Hin|].
  simpl in *. apply NoDup_cons in Hnd as [Hy Hnd].
  apply elem_of_cons in Hin as [->|Hin]; [by rewrite Z.eqb_refl|].
  destruct (Z.eqb_spec (key y) (key x)) as [Heq|_]; [|by apply IH].
  exfalso. apply Hy. rewrite Heq. apply list_elem_of_In, in_map.
  by apply list_elem_of_In.
Qed.

(** X1: over migrations of distinct versions [rollback] undoes [next].
    When [next] from version [v] returns a plan, it is the plan of a
    migration [m] of the list with [previous m = v], and [rollback] from the
    version that plan ends at, [version m], returns the plan of [m]'s
    [uninstall] statements (of none, when [m] has no [uninstall]), which
    ends at [v] again. *)
Theorem rollback_undoes_next schema v ms plan :
  NoDup (map version ms) ->
  next schema v (Some ms) = Ok plan ->
  exists m,
    m ∈ ms /\ previous m = v /\
    plan = flatten schema (install m) (version m) /\
    rollback schema (version m) (Some ms)
    = Ok (flatten schema (default [] (uninstall m)) v).
Proof.
  intros Hnd. unfold next, rollback. simpl.
  destruct (List.find _ ms) as [m|] eqn:Hfind; [|discriminate].
  intros [= <-]. apply find_elem_of in Hfind as [Hin Hp].
  apply Z.eqb_eq in Hp. exists m. split_and!; [done..|].
  by rewrite (find_the_one version ms m Hnd Hin), Hp.
Qed.

(** X2: over migrations of distinct [previous] versions [next] undoes
    [rollback].  When [rollback] from version [v] returns a plan, it is the
    plan of the [uninstall] statements of a migration [m] of the list with
    [version m = v], and [next] from the version that plan ends at,
    [previous m], returns the plan of [m]'s [install] statements, which ends
    at [v] again. *)
Theorem next_undoes_rollback schema v ms plan :
  NoDup (map previous ms) ->
  rollback schema v (Some ms) = Ok plan ->
  exists m,
    m ∈ ms /\ version m = v /\
    plan = flatten schema (default [] (uninstall m)) (previous m) /\
    next schema (previous m) (Some ms) = Ok (flatten schema (install m) v).
Proof.
  intros Hnd. unfold next, rollback. simpl.
  destruct (List.find _ ms) as [m|] eqn:Hfind; [|discriminate].
  intros [= <-]. apply find_elem_of in Hfind as [Hin Hp].
  apply Z.eqb_eq in Hp. exists m. split_and!; [done..|].
  by rewrite (find_the_one previous ms m Hnd Hin), Hp.
Qed.

Lemma find_none_iff {A} (f : A -> bool) (l : list A) :
  List.find f l = None <-> forall x, x ∈ l -> f x = false.
Proof.
  split.
  - intros Hf x Hin. apply list_elem_of_In in Hin. by eapply find_none in Hf.
  - induction l as [|y l IH]; intros Hall; [done|]. simpl.
    rewrite (Hall y) by left. apply IH. intros x Hx. apply Hall. by right.
Qed.

(** X3: [next] throws the assertion error "Version <v> not found." exactly
    when no migration of the list has [v] as its [previous], and [rollback]
    throws it exactly when none has [v] as its [version]. *)
Theorem hop_not_found schema v ms :
  (next schema v (Some ms) = Throw (VError "AssertionError" (not_found v))
   <-> forall m, m ∈ ms -> previous m <> v) /\
  (rollback schema v (Some ms) = Throw (VError "AssertionError" (not_found v))
   <-> forall m, m ∈ ms -> version m <> v).
Proof.
  unfold next, rollback. simpl. split.
  - destruct (List.find _ ms) as [m|] eqn:Hfind.
    + split; [discriminate|]. intros Hall.
      apply find_elem_of in Hfind as [Hin Hp]. apply Z.eqb_eq in Hp.
      by destruct (Hall m Hin).
    + split; [|done]. intros _ m Hin.
      rewrite find_none_iff in Hfind. specialize (Hfind m Hin). simpl in Hfind. lia.
  - destruct (List.find _ ms) as [m|] eqn:Hfind.
    + split; [discriminate|]. intros Hall.
      apply find_elem_of in Hfind as [Hin Hp]. apply Z.eqb_eq in Hp.
      by destruct (Hall m Hin).
    + split; [|done]. intros _ m Hin.
      rewrite find_none_iff in Hfind. specialize (Hfind m Hin). simpl in Hfind. lia.
Qed.


Lemma insert_by_version_comm a b l :
  version a <> version b ->
  StronglySorted version_le l ->
  insert_by_version a (insert_by_version b l)
  = insert_by_version b (insert_by_version a l).
Proof.
  intros Hab. induction 1 as [|x l Hl IH Hx]; simpl.
  - destruct (Z.leb_spec (version a) (version b)), (Z.leb_spec (version b) (version a));
      try done; lia.
  - destruct (Z.leb_spec (version b) (version x)), (Z.leb_spec (version a) (version x));
      simpl;
      repeat match goal with
             | |- context [?p <=? ?q] => destruct (Z.leb_spec p q)
             end; try done; try lia.
    by rewrite IH.
Qed.

Lemma sort_by_version_Permutation l l' :
  l ≡ₚ l' -> NoDup (map version l) -> sort_by_version l = sort_by_version l'.
Proof.
  induction 1 as [|x l l' Hp IH|x y l|l l' l'' Hp IH Hp' IH']; intros Hnd.
  - done.
  - simpl in *. apply NoDup_cons in Hnd as [_ Hnd]. by rewrite IH.
  - simpl in *. apply NoDup_cons in Hnd as [Hy Hnd].
    apply insert_by_version_comm; [|apply sort_by_version_sorted].
    intros Heq. apply Hy. rewrite Heq. by left.
  - rewrite IH by done. apply IH'.
    assert (Hm : map version l ≡ₚ map version l') by (by apply Permutation_map).
    by rewrite <- Hm.
Qed.

Lemma filter_Permutation_bool {A} (f : A -> bool) (l l' : list A) :
  l ≡ₚ l' -> List.filter f l ≡ₚ List.filter f l'.
Proof.
  induction 1 as [|x l l' Hp IH|x y l|l l' l'' Hp IH Hp' IH']; simpl.
  - done.
  - destruct (f x); by rewrite IH.
  - destruct (f x), (f y); try done. apply Permutation_swap.
  - by etrans.
Qed.

Lemma NoDup_map_filter {A} (key : A -> Z) (f : A -> bool) (l : list A) :
  NoDup (map key l) -> NoDup (map key (List.filter f l)).
Proof.
  induction l as [|x l IH]; simpl; [done|].
  intros [Hx Hnd]%NoDup_cons. destruct (f x); simpl; [|by apply IH].
  apply NoDup_cons. split; [|by apply IH].
  intros Hin. apply Hx. apply list_elem_of_In in Hin.
  apply in_map_iff in Hin as (y & Hy & Hin). apply filter_In in Hin as [Hin _].
  rewrite <- Hy. apply list_elem_of_In, in_map, Hin.
Qed.

(** X4: for migrations of distinct versions, the outcome of [migrate], the
    plan or the error, is the same for every order of the list. *)
Theorem migrate_ignores_the_order value fromVersion ms ms' :
  ms ≡ₚ ms' ->
  NoDup (map version ms) ->
  migrate value fromVersion (Some ms) = migrate value fromVersion (Some ms').
Proof.
  intros Hperm Hnd. unfold migrate. simpl.
  rewrite (sort_by_version_Permutation
             (List.filter (fun i => previous i >=? fromVersion) ms)
             (List.filter (fun i => previous i >=? fromVersion) ms')); [done| |].
  - by apply filter_Permutation_bool.
  - by apply NoDup_map_filter.
Qed.

(** X5: when the only migration with [previous >= v] is [m], and [m]
    starts from [v] and installs something, [migrate] from [v] returns the
    very plan [next] from [v] returns: [m]'s [install] statements, wrapped for
    [version m]. *)
Theorem migrate_of_one_hop_is_next schema v ms m :
  List.filter (fun i => previous i >=? v) ms = [m] ->
  previous m = v ->
  install m <> [] ->
  migrate (inl schema) v (Some ms) = next schema v (Some ms) /\
  next schema v (Some ms) = Ok (flatten schema (install m) (version m)).
Proof.
  intros Hsel Hp Hne.
  assert (Hnext : List.find (fun i => previous i =? v) ms = Some m).
  { revert Hsel. induction ms as [|x ms IH]; [done|]. simpl.
    destruct (Z.geb_spec (previous x) v) as [Hge|Hlt].
    - intros [= -> Hrest]. by rewrite Hp, Z.eqb_refl.
    - intros Hrest. destruct (Z.eqb_spec (previous x) v); [lia|]. by apply IH. }
  unfold migrate, next. simpl. rewrite Hsel, Hnext. simpl.
  split; [|done]. by destruct (install m).
Qed.

End MoreMigrationStoreFacts.

(** * More facts about the manager *)

Section MoreManagerFacts.
Import Manager ManagerSpec RegistrySpec.
Context {W : Type}.
Context `{!Attorney W, !Serializer, !Timekeeper, !Crypto, !WorkerClass}.
Implicit Types m : manager W.

Ltac run := repeat first [rewrite run_bind | progress cbn [this mret M_ret] | progress cbv zeta].

(** ** The registry as a map *)

Lemma JSMap_keys_mutate {V} (ws : JSMap.t V) k f :
  JSMap.keys (JSMap.mutate ws k f) = JSMap.keys ws.
Proof.
  unfold JSMap.keys, JSMap.mutate. rewrite map_map. apply map_ext.
  intros e. by destruct (String.eqb e.1 k).
Qed.

Lemma JSMap_get_mutate {V} (ws : JSMap.t V) k f k' :
  JSMap.get (JSMap.mutate ws k f) k'
  = if String.eqb k' k then f <$> JSMap.get ws k' else JSMap.get ws k'.
Proof.
  unfold JSMap.get, JSMap.mutate.
  induction ws as [|[k0 v] ws IH]; simpl; [by destruct (String.eqb k' k)|].
  destruct (String.eqb_spec k0 k) as [->|Hne]; simpl.
  - destruct (String.eqb_spec k k') as [->|Hne']; simpl.
    + by rewrite String.eqb_refl.
    + exact IH.
  - destruct (String.eqb_spec k0 k') as [->|Hne']; simpl; [|exact IH].
    destruct (String.eqb_spec k' k); [done|done].
Qed.

Lemma JSMap_get_set {V} (ws : JSMap.t V) k v k' :
  JSMap.get (JSMap.set ws k v) k'
  = if String.eqb k' k then Some v else JSMap.get ws k'.
Proof.
  unfold JSMap.get.
  induction ws as [|[k0 v0] ws IH]; simpl.
  - rewrite String.eqb_sym. by destruct (String.eqb k' k).
  - destruct (String.eqb_spec k0 k) as [->|Hne]; simpl.
    + rewrite (String.eqb_sym k k'). by destruct (String.eqb k' k).
    + destruct (String.eqb_spec k0 k') as [->|Hne']; simpl.
      * destruct (String.eqb_spec k' k); [done|done].
      * exact IH.
Qed.

Lemma JSMap_get_delete {V} (ws : JSMap.t V) k k' :
  JSMap.get (JSMap.delete ws k) k'
  = if String.eqb k' k then None else JSMap.get ws k'.
Proof.
  unfold JSMap.get, JSMap.delete.
  induction ws as [|[k0 v0] ws IH]; simpl; [by destruct (String.eqb k' k)|].
  destruct (String.eqb_spec k0 k) as [->|Hne]; simpl.
  - rewrite IH. destruct (String.eqb_spec k k') as [->|Hne'].
    + by rewrite String.eqb_refl.
    + done.
  - destruct (String.eqb_spec k0 k') as [->|Hne']; simpl; [|exact IH].
    destruct (String.eqb_spec k' k); [done|done].
Qed.

Lemma JSMap_has_get {V} (ws : JSMap.t V) k :
  JSMap.has ws k = bool_decide (is_Some (JSMap.get ws k)).
Proof.
  unfold JSMap.has, JSMap.get.
  induction ws as [|[k0 v0] ws IH]; simpl; [done|].
  destruct (String.eqb k0 k); simpl; [done|exact IH].
Qed.

Lemma JSMap_get_elem_of {V} (ws : JSMap.t V) k v :
  NoDup (JSMap.keys ws) -> (k, v) ∈ ws -> JSMap.get ws k = Some v.
Proof.
  unfold JSMap.get, JSMap.keys.
  induction ws as [|[k0 v0] ws IH]; intros Hnd Hin; [by apply elem_of_nil in Hin|].
  simpl in *. apply NoDup_cons in Hnd as [Hk Hnd].
  apply elem_of_cons in Hin as [[= -> ->]|Hin]; [by rewrite String.eqb_refl|].
  destruct (String.eqb_spec k0 k) as [->|Hne]; [|by apply IH].
  exfalso. apply Hk. apply list_elem_of_In.
  change k with (fst (k, v)). apply in_map. by apply list_elem_of_In.
Qed.

Lemma JSMap_get_some_elem_of {V} (ws : JSMap.t V) k v :
  JSMap.get ws k = Some v -> (k, v) ∈ ws.
Proof.
  unfold JSMap.get. destruct (List.find _ ws) as [[k0 v0]|] eqn:Hf; [|done].
  intros [= <-]. apply find_some in Hf as [Hin Hk]. simpl in *.
  apply String.eqb_eq in Hk as <-. by apply list_elem_of_In.
Qed.


Ltac apart :=
  intros; cbv beta;
  first [ reflexivity
        | apply apart_world | apply apart_queues | apply apart_wipTs
        | apply apart_emitted | apply apart_clock | apply apart_unhandled
        | apply JSMap_keys_mutate ].

Ltac keeps_step :=
  lazymatch goal with
  | |- keeps _ (mbind _ _) => apply keeps_bind; [|intros ?]
  | |- keeps _ (mret _) => apply keeps_ret
  | |- keeps _ (throw _) => apply keeps_throw
  | |- keeps _ (lift _) => apply keeps_lift
  | |- keeps _ this => apply keeps_this
  | |- keeps _ Date_now => apply keeps_this
  | |- keeps _ (modify _) => apply keeps_modify; apart
  | |- keeps _ (emit _) => apply keeps_emit; apart
  | |- keeps _ (try_catch _ _) => apply keeps_try_catch; [|intros ?]
  | |- keeps _ (detached _) => apply keeps_detached; [apart|]
  | |- keeps _ (for_of _ _) => apply keeps_for_of; intros ?
  | |- keeps _ (executeSql _ _ _) => apply keeps_executeSql; apart
  | |- keeps _ (match ?x with _ => _ end) => destruct x
  | |- keeps _ (let _ := _ in _) => cbv zeta
  end.


(** ** The queue cache *)

Lemma getQueue_run m name rows w :
  assertQueueName name = Ok tt ->
  db m queue (plans.getQueues (schema (mgr_config m)) (Some [name])) None (world m)
    = (Ok rows, w) ->
  getQueue name m = (Ok (head rows), set_world w m).
Proof.
  intros Hname Hdb. unfold getQueue. run. unfold lift at 1. rewrite Hname. run.
  unfold executeSql. by rewrite Hdb.
Qed.

Lemma cache_get_unknown (cache : gmap string queue) name :
  unknown_to cache name -> cache_get cache name = Other VUndefined.
Proof.
  intros (Hown & Hproto & Hname). unfold cache_get, Object_prototype_get.
  rewrite Hown, Hproto.
  destruct (String.eqb_spec name "__proto__") as [->|_].
  { exfalso. apply Hname. unfold Object_prototype. set_solver. }
  destruct (String.eqb_spec name "constructor") as [->|_].
  { exfalso. apply Hname. unfold Object_prototype. set_solver. }
  by rewrite bool_decide_eq_false_2.
Qed.

Lemma getQueueCache_miss_run m name cache q rest w :
  queues m = Some cache ->
  unknown_to cache name ->
  assertQueueName name = Ok tt ->
  db m queue (plans.getQueues (schema (mgr_config m)) (Some [name])) None (world m)
    = (Ok (q :: rest), w) ->
  getQueueCache name m
  = (Ok (Row q), set_queues (Some (<[name := q]> cache)) (set_world w m)).
Proof.
  intros Hq Hc Hname Hdb.
  unfold getQueueCache. run. rewrite Hq, (cache_get_unknown _ _ Hc). cbn [cached_truthy truthy].
  run. rewrite (getQueue_run _ _ _ _ Hname Hdb). simpl. run. simpl. by rewrite Hq.
Qed.

(** X6: when the cache, read as a plain object, does not resolve the name
    and the database returns a row for it, [getQueueCache] returns the first
    row and stores it in the cache under the name; a second call returns the
    same row and leaves the manager, the database included, as the first
    call left it. *)
Theorem getQueueCache_caches_a_miss m name cache q rest w :
  queues m = Some cache ->
  unknown_to cache name ->
  assertQueueName name = Ok tt ->
  db m queue (plans.getQueues (schema (mgr_config m)) (Some [name])) None (world m)
    = (Ok (q :: rest), w) ->
  let m' := set_queues (Some (<[name := q]> cache)) (set_world w m) in
  getQueueCache name m = (Ok (Row q), m') /\
  getQueueCache name m' = (Ok (Row q), m').
Proof.
  intros Hq Hc Hname Hdb m'.
  split; [by eapply getQueueCache_miss_run|].
  apply getQueueCache_hit with (<[name := q]> cache); [done|].
  by rewrite lookup_insert_eq.
Qed.

Lemma unknown_queue_run m name cache w :
  queues m = Some cache ->
  unknown_to cache name ->
  assertQueueName name = Ok tt ->
  db m queue (plans.getQueues (schema (mgr_config m)) (Some [name])) None (world m)
    = (Ok [], w) ->
  getQueueCache name m
  = (Throw (Error ("Queue " +:+ name +:+ " does not exist")), set_world w m).
Proof.
  intros Hq Hc Hname Hdb.
  unfold getQueueCache. run. rewrite Hq, (cache_get_unknown _ _ Hc). cbn [cached_truthy truthy].
  run. by rewrite (getQueue_run _ _ _ _ Hname Hdb).
Qed.

(** X7: when the cache, read as a plain object, does not resolve the name
    and the database returns no row for it, [getQueueCache] throws "Queue
    <name> does not exist", and the cache is left as it was. *)
Theorem getQueueCache_unknown_queue m name cache w :
  queues m = Some cache ->
  unknown_to cache name ->
  assertQueueName name = Ok tt ->
  db m queue (plans.getQueues (schema (mgr_config m)) (Some [name])) None (world m)
    = (Ok [], w) ->
  getQueueCache name m
  = (Throw (Error ("Queue " +:+ name +:+ " does not exist")), set_world w m).
Proof. apply unknown_queue_run. Qed.

(** X8: [send] to a queue that the cache, read as a plain object, does not
    resolve and that the database does not hold throws "Queue <name> does
    not exist"; the lookup is the only statement the database has seen, so
    nothing is inserted. *)
Theorem send_to_an_unknown_queue m args name data options cache w :
  checkSendArgs args (mgr_config m) = Ok (name, data, options) ->
  queues m = Some cache ->
  unknown_to cache name ->
  assertQueueName name = Ok tt ->
  db m queue (plans.getQueues (schema (mgr_config m)) (Some [name])) None (world m)
    = (Ok [], w) ->
  send args m
  = (Throw (Error ("Queue " +:+ name +:+ " does not exist")), set_world w m).
Proof.
  intros Hargs Hq Hc Hname Hdb.
  unfold send. run. unfold lift at 1. rewrite Hargs. unfold createJob.
  cbn [createJob_depth]. run.
  by rewrite (unknown_queue_run _ _ _ _ Hq Hc Hname Hdb).
Qed.

(** X26: a name that [Object.prototype] defines is resolved by the cache
    without being a queue.  When the cache has no entry of that name and its
    prototype is the one it was created with, [getQueueCache] returns the
    inherited value, asks the database nothing and leaves the manager as it
    was; the [table] read off that value is [undefined]. *)
Theorem getQueueCache_inherited_name m name cache :
  queues m = Some cache ->
  cache !! name = None ->
  cache !! "__proto__" = None ->
  name ∈ Object_prototype ->
  exists v,
    getQueueCache name m = (Ok (Other v), m) /\
    truthy v = true /\ table_of (Other v) = VUndefined.
Proof.
  intros Hq Hown Hproto Hname. exists (Object_prototype_get name).
  assert (Hv : truthy (Object_prototype_get name) = true /\
               table_of (Other (Object_prototype_get name)) = VUndefined).
  { unfold Object_prototype_get.
    destruct (String.eqb name "__proto__"); [done|].
    destruct (String.eqb name "constructor"); [done|].
    by rewrite bool_decide_eq_true_2. }
  destruct Hv as [Htruthy Htable]. split_and!; [|done..].
  unfold getQueueCache. run. rewrite Hq. unfold cache_get. rewrite Hown, Hproto.
  cbn [cached_truthy]. by rewrite Htruthy.
Qed.


(** ** Refreshing the cache *)

Lemma getQueues_all_run m rows w e :
  (db m queue (plans.getQueues (schema (mgr_config m)) None) None (world m) = (Ok rows, w) ->
   getQueues None m = (Ok rows, set_world w m)) /\
  (db m queue (plans.getQueues (schema (mgr_config m)) None) None (world m) = (Throw e, w) ->
   getQueues None m = (Throw e, set_world w m)).
Proof.
  split; intros Hdb; unfold getQueues; run; unfold executeSql; by rewrite Hdb.
Qed.

Lemma cache_of_rows_lookup (rows : list queue) (init : gmap string queue) name :
  fold_left (fun acc i => <[queue_name i := i]> acc) rows init !! name
  = match last (List.filter (fun i => String.eqb (queue_name i) name) rows) with
    | Some q => Some q
    | None => init !! name
    end.
Proof.
  revert init. induction rows as [|r rows IH]; intros init; [done|].
  cbn [fold_left List.filter]. rewrite IH.
  destruct (String.eqb_spec (queue_name r) name) as [Heq|Hne].
  - destruct (List.filter _ rows) as [|x l] eqn:Hf.
    + simpl. subst name. apply lookup_insert_eq.
    + rewrite last_cons_cons. destruct (last (x :: l)) eqn:Hl; [done|].
      by apply last_None in Hl.
  - destruct (last _); [done|]. by apply lookup_insert_ne.
Qed.

Lemma emit_run m e :
  listeners m (event_name e) <> [] ->
  heard m e ->
  emit e m = (Ok true, set_emitted (emitted m ++ [e]) m).
Proof.
  intros Hsome Hheard. unfold emit, modify. run. cbn [listeners set_emitted].
  unfold heard in Hheard.
  destruct (listeners m (event_name e)) as [|l ls] eqn:Hls; [done|]. run.
  assert (Hloop : forall ls' m0, Forall (fun l : listener => l e = Ok tt) ls' ->
            for_of ls' (fun l => lift (W:=W) (l e)) m0 = (Ok tt, m0)).
  { induction ls' as [|l' ls' IH]; intros m0 Hall; [done|].
    apply Forall_cons in Hall as [Hl Hall]. simpl. run. unfold lift at 1.
    rewrite Hl. by apply IH. }
  by rewrite Hloop.
Qed.

(** X9: when the query of the queues returns rows, [onCacheQueues] does
    not throw and replaces the cache by an object whose entries are, under
    each name, the last row of that name.  When the query fails with an error
    other than [null] or [undefined], the cache is left as it was and the
    error is emitted as an "error" event: with a listener for it, and every
    listener returning, [onCacheQueues] does not throw; without a listener,
    [emit] throws and so does [onCacheQueues].  When the query fails with
    [null] or [undefined], building the event throws a [TypeError]. *)
Theorem onCacheQueues_reports_a_failure m :
  (forall rows w,
     db m queue (plans.getQueues (schema (mgr_config m)) None) None (world m) = (Ok rows, w) ->
     exists cache,
       onCacheQueues m = (Ok tt, set_queues (Some cache) (set_world w m)) /\
       forall name,
         cache !! name
         = last (List.filter (fun i => String.eqb (queue_name i) name) rows)) /\
  (forall e w,
     db m queue (plans.getQueues (schema (mgr_config m)) None) None (world m) = (Throw e, w) ->
     let m' := set_emitted (emitted m ++ [error_event e None None]) (set_world w m) in
     match e with
     | VNull =>
         onCacheQueues m = (Throw (VTypeError (ReadOfNull "message")), set_world w m)
     | VUndefined =>
         onCacheQueues m = (Throw (VTypeError (ReadOfUndefined "message")), set_world w m)
     | _ =>
         (listeners m "error" = [] ->
          onCacheQueues m = (Throw (ERR_UNHANDLED_ERROR e), m')) /\
         (listeners m "error" <> [] ->
          Forall (fun l : listener => l (error_event e None None) = Ok tt)
            (listeners m "error") ->
          onCacheQueues m = (Ok tt, m'))
     end).
Proof.
  split.
  - intros rows w Hdb. eexists. split.
    + unfold onCacheQueues, try_catch. run.
      by rewrite (proj1 (getQueues_all_run m rows w VNull) Hdb).
    + intros name. rewrite cache_of_rows_lookup.
      by destruct (last _).
  - intros e w Hdb m'.
    assert (Hrun : onCacheQueues m
                   = (payload ← lift (error_payload e None None);
                      _ ← emit payload; mret tt) (set_world w m)).
    { unfold onCacheQueues, try_catch. run.
      by rewrite (proj2 (getQueues_all_run m [] w e) Hdb). }
    rewrite Hrun.
    assert (Hcases :
      (listeners m "error" = [] ->
       (_ ← emit (error_event e None None); mret tt) (set_world w m)
       = (Throw (ERR_UNHANDLED_ERROR e), m')) /\
      (listeners m "error" <> [] ->
       Forall (fun l : listener => l (error_event e None None) = Ok tt)
         (listeners m "error") ->
       (_ ← emit (error_event e None None); mret tt) (set_world w m) = (Ok tt, m'))).
    { split.
      - intros Hnone. unfold emit, modify. run. cbn [listeners set_emitted set_world event_name].
        by rewrite Hnone.
      - intros Hsome Hheard. run. by rewrite emit_run. }
    destruct e; try exact Hcases; done.
Qed.

(** X10: [getQueues] checks the names in order before it queries: at the
    first name [assertQueueName] rejects it throws that error, and the
    database has not been called. *)
Theorem getQueues_validates_first m valid name invalid e :
  Forall (fun n => assertQueueName n = Ok tt) valid ->
  assertQueueName name = Throw e ->
  getQueues (Some (valid ++ name :: invalid)) m = (Throw e, m).
Proof.
  intros Hvalid Hname. unfold getQueues. run.
  assert (Hloop : for_of (valid ++ name :: invalid)
                    (fun name => lift (W:=W) (assertQueueName name)) m = (Throw e, m)).
  { induction Hvalid as [|n valid Hn _ IH]; simpl; run.
    - unfold lift at 1. by rewrite Hname.
    - unfold lift at 1. rewrite Hn. exact IH. }
  by rewrite Hloop.
Qed.

(** ** Ids and outputs *)

(** X11: [mapCompletionIdArg] returns a list that is never empty: the
    items of an array, or the one id given.  It throws the assertion error
    "<funcName>() requires an id" exactly for a falsy id and for the empty
    array. *)
Theorem mapCompletionIdArg_ids id funcName :
  match mapCompletionIdArg id funcName with
  | Ok ids =>
      ids <> [] /\ truthy id = true /\
      match id with VArray items => ids = items | _ => ids = [id] end
  | Throw e =>
      e = VError "AssertionError" (funcName +:+ "() requires an id") /\
      (truthy id = false \/ id = VArray [])
  end.
Proof.
  unfold mapCompletionIdArg, assert.
  destruct (truthy id) eqn:Hid; simpl; [|by auto].
  destruct id as [| | | | | |items| | |]; simpl; try done.
  destruct items; simpl; [by auto|done].
Qed.

(** X12: for a valid queue name, a usable id and a cached queue, [fail]
    runs [plans.failJobsById] for the cached queue, on the executor in the
    options or else the manager's, with the values [name; ids; output], the
    output being what [mapCompletionDataArg] makes of the data, and maps the
    rows to the response. *)
Theorem fail_stores_output m name id data options_db ids cache q :
  assertQueueName name = Ok tt ->
  mapCompletionIdArg id "fail" = Ok ids ->
  queues m = Some cache -> cache !! name = Some q ->
  fail name id data options_db m
  = let '(rows, w) :=
      default (db m) options_db counted
        (plans.failJobsById (schema (mgr_config m)) (Row q))
        (Some [VStr name; VArray ids; stored_output data]) (world m) in
    (rows ≫= mapCommandResponse ids, set_world w m).
Proof.
  intros Hname Hids Hq Hc. unfold fail.
  run. unfold lift at 1. rewrite Hname. run. unfold lift at 1. rewrite Hids.
  rewrite (run_bind_ok _ _ _ _ _ (getQueueCache_hit _ _ _ _ Hq Hc)).
  run. unfold executeSql, lift. rewrite mapCompletionDataArg_stored.
  by destruct (default (db m) options_db counted _ _ _) as [[rows|e] w].
Qed.

(** X13: with a falsy id or the empty array, [complete] and [fail] throw
    "complete() requires an id" and "fail() requires an id"; the manager, its
    database included, is left as it was. *)
Theorem complete_and_fail_need_an_id m name id data options_db :
  assertQueueName name = Ok tt ->
  truthy id = false \/ id = VArray [] ->
  complete name id data options_db m
  = (Throw (VError "AssertionError" "complete() requires an id"), m) /\
  fail name id data options_db m
  = (Throw (VError "AssertionError" "fail() requires an id"), m).
Proof.
  intros Hname Hid.
  assert (Hids : forall f, mapCompletionIdArg id f
                           = Throw (VError "AssertionError" (f +:+ "() requires an id"))).
  { intros f. unfold mapCompletionIdArg, assert.
    destruct Hid as [Hid| ->]; [by rewrite Hid|done]. }
  split; [unfold complete|unfold fail];
    run; unfold lift at 1; rewrite Hname; run; unfold lift at 1; by rewrite Hids.
Qed.


(** ** Work in progress *)

Lemma getWipData_run m b :
  exists data, getWipData b m = (Ok data, m) /\
    Forall (fun i => 0 < wip_count i /\ (INTERNAL_QUEUES (wip_name i) = false \/ b = true))
      data.
Proof.
  unfold getWipData, getWorkers. run. eexists. split; [done|].
  apply Forall_forall. intros i Hin. apply list_elem_of_In, filter_In in Hin as [_ Hi].
  apply andb_prop in Hi as [Hc Hq]. split; [lia|].
  apply orb_prop in Hq as [Hq|Hq]; [left|by right].
  by apply negb_true_iff.
Qed.

Lemma listeners_run (ls : list listener) (e : event) m :
  for_of ls (fun l => lift (W:=W) (l e)) m
  = (match first_thrown ls e with None => Ok tt | Some x => Throw x end, m).
Proof.
  induction ls as [|l ls IH]; [done|]. simpl. run. unfold lift at 1.
  by destruct (l e) as [[]|x].
Qed.

Lemma first_thrown_heard (ls : list listener) (e : event) :
  Forall (fun l : listener => l e = Ok tt) ls -> first_thrown ls e = None.
Proof. induction 1 as [|l ls Hl _ IH]; [done|]. simpl. by rewrite Hl. Qed.

Lemma emitWip_run m name :
  (INTERNAL_QUEUES name = true \/ clock m - wipTs m <= 2000 ->
   emitWip name m = (Ok tt, m)) /\
  (INTERNAL_QUEUES name = false -> 2000 < clock m - wipTs m ->
   exists data,
     Forall (fun i => 0 < wip_count i /\ INTERNAL_QUEUES (wip_name i) = false) data /\
     let m' := set_emitted (emitted m ++ [wip_event data]) m in
     emitWip name m
     = match first_thrown (listeners m "wip") (wip_event data) with
       | None => (Ok tt, set_wipTs (clock m) m')
       | Some e => (Throw e, m')
       end).
Proof.
  split.
  - intros Hq. unfold emitWip. destruct (INTERNAL_QUEUES name); [done|].
    destruct Hq as [[=]|Hq]. cbn [negb]. unfold Date_now. run.
    destruct (Z.ltb_spec 2000 (clock m - wipTs m)); [lia|done].
  - intros Hname Hlate. unfold emitWip. rewrite Hname. cbn [negb]. unfold Date_now. run.
    destruct (Z.ltb_spec 2000 (clock m - wipTs m)); [|lia].
    destruct (getWipData_run m false) as (data & Hdata & Hall).
    exists data. split.
    { eapply Forall_impl; [exact Hall|]. intros i [Hc [Hq|[=]]]. done. }
    cbv zeta. run. rewrite Hdata. unfold emit, modify. run.
    cbn [listeners set_emitted event_name].
    destruct (listeners m "wip") as [|l ls] eqn:Hls; [done|].
    run. rewrite listeners_run.
    by destruct (first_thrown (l :: ls) (wip_event data)).
Qed.

(** X14: [emitWip] is throttled.  For an internal queue, and when no more
    than 2000 ms have passed since the last emission, it does nothing.
    Otherwise it emits one "wip" event, which lists only workers that hold
    jobs and are not on an internal queue.  When every listener returns, it
    records the time, and a further call at the same time does nothing;
    when a listener throws, [emitWip] throws what the first such listener
    threw and the time is not recorded. *)
Theorem emitWip_is_throttled m name :
  (INTERNAL_QUEUES name = true \/ clock m - wipTs m <= 2000 ->
   emitWip name m = (Ok tt, m)) /\
  (INTERNAL_QUEUES name = false -> 2000 < clock m - wipTs m ->
   exists data,
     Forall (fun i => 0 < wip_count i /\ INTERNAL_QUEUES (wip_name i) = false) data /\
     let m' := set_emitted (emitted m ++ [wip_event data]) m in
     emitWip name m
     = match first_thrown (listeners m "wip") (wip_event data) with
       | None => (Ok tt, set_wipTs (clock m) m')
       | Some e => (Throw e, m')
       end) /\
  (INTERNAL_QUEUES name = false -> (emitWip name m).1 = Ok tt ->
   forall name', emitWip name' (emitWip name m).2 = (Ok tt, (emitWip name m).2)).
Proof.
  split_and!; [apply emitWip_run..|].
  intros Hname Hok name'.
  apply emitWip_run. right.
  destruct (Z.le_gt_cases (clock m - wipTs m) 2000) as [Hle|Hgt].
  - by rewrite (proj1 (emitWip_run m name)) by auto.
  - destruct (proj2 (emitWip_run m name) Hname ltac:(lia)) as (data & _ & Hrun).
    cbv zeta in Hrun. rewrite Hrun in Hok |- *.
    destruct (first_thrown _ _); [done|]. simpl. lia.
Qed.

(** With listeners that return, [emitWip] does not throw, and leaves the
    listeners and the unhandled rejections as they were. *)
Lemma emitWip_heard m name :
  (forall data, heard m (wip_event data)) ->
  exists m',
    emitWip name m = (Ok tt, m') /\
    listeners m' = listeners m /\ unhandled m' = unhandled m /\
    mgr_config m' = mgr_config m.
Proof.
  intros Hheard.
  destruct (INTERNAL_QUEUES name) eqn:Hname.
  { exists m. by rewrite (proj1 (emitWip_run m name)) by auto. }
  destruct (Z.le_gt_cases (clock m - wipTs m) 2000) as [Hle|Hgt].
  { exists m. by rewrite (proj1 (emitWip_run m name)) by auto. }
  destruct (proj2 (emitWip_run m name) Hname ltac:(lia)) as (data & _ & Hrun).
  cbv zeta in Hrun. rewrite Hrun.
  pose proof (first_thrown_heard _ _ (Hheard data)) as Hnone.
  cbn [event_name] in Hnone. rewrite Hnone. by eexists.
Qed.


(** ** The race and the debounce *)

(** X15: [resolveWithinSeconds] waits [max (1, seconds) * 1000] ms at
    most, which is at least 1000 ms, and never longer than the promise takes
    to settle.  It returns a value exactly when the promise fulfils with it
    within that time; otherwise it either rejects with "handler execution
    exceeded <timeout>ms" at the timeout, or settles when the promise
    does. *)
Theorem resolveWithinSeconds_is_bounded p seconds :
  let timeout := Z.max 1 seconds * 1000 in
  let '(waited, outcome) := resolveWithinSeconds p seconds in
  1000 <= timeout /\
  (forall t s, p = Some (t, s) -> waited <= t) /\
  waited <= timeout /\
  (forall v, outcome = Ok v <-> exists t, p = Some (t, Fulfilled v) /\ t <= timeout) /\
  (outcome = Throw (Error (timeout_message timeout)) /\ waited = timeout \/
   exists s, p = Some (waited, s)).
Proof.
  intros timeout. unfold resolveWithinSeconds, Promise_race, delay. cbn [fst snd].
  fold timeout. fold (timeout_message timeout).
  destruct p as [[t [v|e]]|]; [destruct (Z.leb_spec t timeout)..|]; cbn.
  all: split_and!; try lia; try (intros ? ? [= <- <-]; lia); try done;
    try (right; by eexists); try (by left).
  all: intros v'; split; [try done|intros (t' & [=] & ?); try lia].
  - intros [= ->]. eauto.
  - by subst.
Qed.


(** ** What the worker's batch handling throws *)

(** X17: with the test hook [__test__throw_worker] off and "wip"
    listeners that return, [onFetch] does not throw, whatever the handler
    does and whatever the report of the outcome runs into.  The call of
    [complete] or [fail] is not awaited: what it throws is not thrown by
    [onFetch] but left as a rejection nobody handles, one at most. *)
Theorem onFetch_does_not_throw m name callback jobs :
  __test__throw_worker (mgr_config m) = false ->
  (forall data, heard m (wip_event data)) ->
  (onFetch name callback jobs m).1 = Ok tt /\
  exists rejected,
    unhandled (onFetch name callback jobs m).2 = unhandled m ++ rejected /\
    (length rejected <= 1)%nat.
Proof.
  intros Hhook Hheard. unfold onFetch. destruct jobs as [|j jobs].
  { split; [done|]. exists []. simpl. rewrite app_nil_r. split; [done|lia]. }
  cbn [length Nat.eqb]. run. rewrite Hhook. run.
  destruct (emitWip_heard m name Hheard) as (m1 & -> & Hls1 & Hun1 & _). run.
  set (body := try_catch _ _).
  assert (Hreport : forall A (c : M W A), keeps (@unhandled W) c -> keeps (@listeners W) c ->
    forall m0, exists rejected,
      (detached c m0).1 = Ok tt /\
      unhandled (detached c m0).2 = unhandled m0 ++ rejected /\
      (length rejected <= 1)%nat /\
      listeners (detached c m0).2 = listeners m0).
  { intros A c Hu Hl m0. unfold detached. specialize (Hu m0). specialize (Hl m0).
    destruct (c m0) as [[a|e] m']; simpl in *.
    - exists []. rewrite app_nil_r, Hu. split_and!; [done..|simpl; lia|done].
    - exists [e]. simpl. rewrite Hu. split_and!; [done..|lia|done]. }
  assert (Hcomplete : forall ids data,
            keeps (@unhandled W) (complete name ids data None) /\
            keeps (@listeners W) (complete name ids data None)).
  { intros. split; unfold complete, getQueueCache, getQueue; repeat keeps_step. }
  assert (Hfail : forall ids data,
            keeps (@unhandled W) (fail name ids data None) /\
            keeps (@listeners W) (fail name ids data None)).
  { intros. split; unfold fail, getQueueCache, getQueue; repeat keeps_step. }
  assert (Hbody : exists m2 rejected,
    body m1 = (Ok tt, m2) /\ unhandled m2 = unhandled m1 ++ rejected /\
    (length rejected <= 1)%nat /\ listeners m2 = listeners m1).
  { subst body. unfold try_catch. run.
    assert (Hawait : keeps (@unhandled W)
                       (await_resolveWithinSeconds (callback (j :: jobs))
                          (fold_left (fun acc i => Z.max acc (expireInSeconds i))
                             (j :: jobs) 0)) /\
                     keeps (@listeners W)
                       (await_resolveWithinSeconds (callback (j :: jobs))
                          (fold_left (fun acc i => Z.max acc (expireInSeconds i))
                             (j :: jobs) 0))).
    { split; unfold await_resolveWithinSeconds; repeat keeps_step. }
    destruct Hawait as [Hau Hal]. specialize (Hau m1). specialize (Hal m1).
    destruct (await_resolveWithinSeconds _ _ m1) as [[v|e] m2]; simpl in Hau, Hal.
    - destruct (Hreport _ _ (proj1 (Hcomplete
                  (VArray (map (fun job => VStr (id job)) (j :: jobs)))
                  (if Nat.eqb (length (map (fun job => VStr (id job)) (j :: jobs))) 1
                   then v else VUndefined)))
                  (proj2 (Hcomplete _ _)) m2) as (rejected & Hok & Hun & Hlen & Hls).
      destruct (detached _ m2) as [r m3]; simpl in *. subst r.
      exists m3, rejected. by rewrite Hun, Hau, Hls, Hal.
    - destruct (Hreport _ _ (proj1 (Hfail
                  (VArray (map (fun job => VStr (id job)) (j :: jobs))) e))
                  (proj2 (Hfail _ _)) m2) as (rejected & Hok & Hun & Hlen & Hls).
      destruct (detached _ m2) as [r m3]; simpl in *. subst r.
      exists m3, rejected. by rewrite Hun, Hau, Hls, Hal. }
  destruct Hbody as (m2 & rejected & -> & Hun2 & Hlen & Hls2).
  assert (Hheard2 : forall data, heard m2 (wip_event data)).
  { intros data. unfold heard. rewrite Hls2, Hls1. apply Hheard. }
  destruct (emitWip_heard m2 name Hheard2) as (m3 & -> & _ & Hun3 & _).
  split; [done|]. exists rejected. cbn [snd]. by rewrite Hun3, Hun2, Hun1.
Qed.


(** ** offWork *)

Lemma mutate_many_entry {V} (f : V -> V) (ks : list string) (e : string * V) :
  NoDup ks ->
  fold_left (fun e k => if String.eqb e.1 k then (e.1, f e.2) else e) ks e
  = if bool_decide (e.1 ∈ ks) then (e.1, f e.2) else e.
Proof.
  revert e. induction ks as [|k ks IH]; intros e Hnd; [done|].
  apply NoDup_cons in Hnd as [Hk Hnd]. cbn [fold_left]. rewrite IH by done.
  destruct (String.eqb_spec e.1 k) as [Heq|Hne]; simpl.
  - rewrite Heq. rewrite (bool_decide_eq_false_2 (k ∈ ks)) by done.
    rewrite bool_decide_eq_true_2 by left. done.
  - destruct (decide (e.1 ∈ ks)) as [Hin|Hnin].
    + rewrite !bool_decide_eq_true_2; [done|by right|done].
    + rewrite !bool_decide_eq_false_2; [done| |done].
      intros [?|?]%elem_of_cons; done.
Qed.

Lemma mutate_many {V} (f : V -> V) (ks : list string) (ws : JSMap.t V) :
  fold_left (fun ws k => JSMap.mutate ws k f) ks ws
  = map (fun e => fold_left (fun e k => if String.eqb e.1 k then (e.1, f e.2) else e) ks e)
      ws.
Proof.
  revert ws. induction ks as [|k ks IH]; intros ws; simpl.
  - by rewrite map_id.
  - rewrite IH. unfold JSMap.mutate. by rewrite map_map.
Qed.

Lemma NoDup_keys_filter {V} (P : string * V -> bool) (ws : JSMap.t V) :
  NoDup (JSMap.keys ws) -> NoDup (JSMap.keys (List.filter P ws)).
Proof.
  unfold JSMap.keys. induction ws as [|e ws IH]; simpl; [done|].
  intros [He Hnd]%NoDup_cons. destruct (P e); simpl; [|by apply IH].
  apply NoDup_cons. split; [|by apply IH].
  intros Hin. apply He. apply list_elem_of_In in Hin.
  apply in_map_iff in Hin as (y & Hy & Hin). apply filter_In in Hin as [Hin _].
  rewrite <- Hy. apply list_elem_of_In, in_map, Hin.
Qed.

Lemma mutate_the_filtered {V} (f : V -> V) (P : string * V -> bool) (ws : JSMap.t V) :
  NoDup (JSMap.keys ws) ->
  fold_left (fun ws k => JSMap.mutate ws k f) (JSMap.keys (List.filter P ws)) ws
  = map (fun e => if P e then (e.1, f e.2) else e) ws.
Proof.
  intros Hnd. rewrite mutate_many. apply map_ext_in. intros e Hin.
  rewrite mutate_many_entry by by apply NoDup_keys_filter.
  destruct (P e) eqn:HP.
  - rewrite bool_decide_eq_true_2; [done|].
    apply list_elem_of_In. unfold JSMap.keys. apply in_map. by apply filter_In.
  - rewrite bool_decide_eq_false_2; [done|].
    intros Hk. apply list_elem_of_In in Hk. unfold JSMap.keys in Hk.
    apply in_map_iff in Hk as (e' & He' & Hin'). apply filter_In in Hin' as [Hin' HP'].
    assert (e' = e); [|congruence].
    destruct e as [k v], e' as [k' v']. simpl in He'. subst k'.
    assert (JSMap.get ws k = Some v) as Hv
      by (by apply JSMap_get_elem_of; [|apply list_elem_of_In]).
    assert (JSMap.get ws k = Some v') as Hv'
      by (by apply JSMap_get_elem_of; [|apply list_elem_of_In]).
    congruence.
Qed.

Lemma stop_loop_run (hit : list (string * worker)) m :
  for_of hit (fun e =>
    modify (fun m => set_workers (JSMap.mutate (workers m) e.1 Worker_stop) m)) m
  = (Ok tt,
     set_workers
       (fold_left (fun ws k => JSMap.mutate ws k Worker_stop) (JSMap.keys hit) (workers m)) m).
Proof.
  revert m. induction hit as [|e hit IH]; intros m; simpl.
  - by destruct m.
  - run. unfold modify at 1. run. rewrite IH. simpl. done.
Qed.

Lemma offWork_run m value :
  match value with inl s | inr s => s <> "" end ->
  NoDup (JSMap.keys (workers m)) ->
  let hit := List.filter (fun e => targets value e.2) (workers m) in
  offWork value m
  = (Ok tt,
     match hit with
     | [] => m
     | _ =>
         set_immediates (immediates m ++ [JSMap.keys hit])
           (set_workers
              (map (fun e => if targets value e.2 then (e.1, Worker_stop e.2) else e)
                 (workers m)) m)
     end).
Proof.
  intros Hvalue Hnd hit. unfold offWork, assert.
  assert (Hrest :
    (if Nat.eqb (length hit) 0 then mret tt
     else
       _ ← for_of hit (fun e =>
             modify (fun m => set_workers (JSMap.mutate (workers m) e.1 Worker_stop) m));
       modify (fun m => set_immediates (immediates m ++ [map fst hit]) m)) m
    = (Ok tt,
       match hit with
       | [] => m
       | _ =>
           set_immediates (immediates m ++ [JSMap.keys hit])
             (set_workers
                (map (fun e => if targets value e.2 then (e.1, Worker_stop e.2) else e)
                   (workers m)) m)
       end)).
  { assert (Hmut := mutate_the_filtered Worker_stop (fun e => targets value e.2)
                      (workers m) Hnd).
    fold hit in Hmut. clearbody hit. destruct hit as [|e hit']; [done|].
    cbn [length Nat.eqb]. run. rewrite stop_loop_run. unfold modify. run.
    cbn [immediates set_workers workers]. by rewrite Hmut. }
  destruct value as [s|s]; cbn [negb].
  - destruct (String.eqb_spec s ""); [done|]. cbn [negb]. run. unfold lift at 1. run.
    exact Hrest.
  - run. unfold lift at 1. run.
    destruct (String.eqb_spec s ""); [done|]. cbn [negb]. run. exact Hrest.
Qed.

(** X18: for a queue name or a worker id that is not empty, over a
    registry whose keys are distinct, [offWork] stops exactly the workers the
    argument names that are neither stopping nor stopped, leaves every other
    worker as it is, and hands [setImmediate] one callback that waits for
    those workers; when there is no such worker it does nothing. *)
Theorem offWork_stops_its_targets m value :
  match value with inl s | inr s => s <> "" end ->
  NoDup (JSMap.keys (workers m)) ->
  let hit := List.filter (fun e => targets value e.2) (workers m) in
  offWork value m
  = (Ok tt,
     match hit with
     | [] => m
     | _ =>
         set_immediates (immediates m ++ [JSMap.keys hit])
           (set_workers
              (map (fun e => if targets value e.2 then (e.1, Worker_stop e.2) else e)
                 (workers m)) m)
     end).
Proof. apply offWork_run. Qed.



(** ** What the calls leave of the registry *)

Section Apart.
Context {B : Type} (proj : manager W -> B) `{!WorkerSide proj}.

Lemma getQueues_apart names : keeps proj (getQueues names).
Proof. unfold getQueues. repeat keeps_step. Qed.

Lemma getQueue_apart name : keeps proj (getQueue name).
Proof. unfold getQueue. repeat keeps_step. Qed.

Lemma getQueueCache_apart name : keeps proj (getQueueCache name).
Proof. unfold getQueueCache. repeat first [apply getQueue_apart | keeps_step]. Qed.

Lemma onCacheQueues_apart : keeps proj onCacheQueues.
Proof. unfold onCacheQueues. repeat first [apply getQueues_apart | keeps_step]. Qed.

Lemma emitWip_apart name : keeps proj (emitWip name).
Proof. unfold emitWip, getWipData, getWorkers. repeat keeps_step. Qed.

Lemma complete_apart name id data odb : keeps proj (complete name id data odb).
Proof. unfold complete. repeat first [apply getQueueCache_apart | keeps_step]. Qed.

Lemma fail_apart name id data odb : keeps proj (fail name id data odb).
Proof. unfold fail. repeat first [apply getQueueCache_apart | keeps_step]. Qed.

Lemma fetch_apart name options : keeps proj (fetch name options).
Proof. unfold fetch. repeat first [apply getQueueCache_apart | keeps_step]. Qed.

Lemma createJob_depth_apart depth name data options offset :
  keeps proj (createJob_depth depth name data options offset).
Proof.
  revert options offset. induction depth as [|depth IH]; intros options offset; simpl.
  - keeps_step.
  - unfold getDebounceStartAfter.
    repeat first [apply getQueueCache_apart | apply IH | keeps_step].
Qed.

Lemma failWip_apart : keeps proj failWip.
Proof. unfold failWip. repeat first [apply fail_apart | keeps_step]. Qed.

Lemma onFetch_apart name callback jobs : keeps proj (onFetch name callback jobs).
Proof.
  unfold onFetch, await_resolveWithinSeconds.
  repeat first [apply emitWip_apart | apply complete_apart | apply fail_apart | keeps_step].
Qed.

Lemma send_apart args : keeps proj (send args).
Proof. unfold send, createJob. repeat first [apply createJob_depth_apart | keeps_step]. Qed.

Lemma sendAfter_apart name data options after :
  keeps proj (sendAfter name data options after).
Proof.
  unfold sendAfter, createJob. repeat first [apply createJob_depth_apart | keeps_step].
Qed.

Lemma sendThrottled_apart name data options seconds key :
  keeps proj (sendThrottled name data options seconds key).
Proof.
  unfold sendThrottled, createJob. repeat first [apply createJob_depth_apart | keeps_step].
Qed.

Lemma sendDebounced_apart name data options seconds key :
  keeps proj (sendDebounced name data options seconds key).
Proof.
  unfold sendDebounced, createJob. repeat first [apply createJob_depth_apart | keeps_step].
Qed.

Lemma data_call_apart c m : registry_call c = false -> proj (perform c m) = proj m.
Proof.
  destruct c; try discriminate; intros _; simpl.
  - apply send_apart.
  - apply sendAfter_apart.
  - apply sendThrottled_apart.
  - apply sendDebounced_apart.
  - apply fetch_apart.
  - apply complete_apart.
  - apply fail_apart.
  - apply failWip_apart.
  - apply getQueues_apart.
  - apply getQueue_apart.
  - apply onFetch_apart.
  - apply onCacheQueues_apart.
Qed.

End Apart.

(** X19: the calls that deal with jobs and queues ([send] and its
    variants, [fetch], [complete], [fail], [failWip], [getQueues],
    [getQueue], the batch handling of a worker and the refresh of the cache)
    leave the registry of workers, the callbacks waiting in [setImmediate],
    the number of ids drawn and the [stopped] flag as they were. *)
Theorem data_calls_leave_the_registry_alone (c : call) m :
  registry_call c = false ->
  workers (perform c m) = workers m /\
  immediates (perform c m) = immediates m /\
  uuids_drawn (perform c m) = uuids_drawn m /\
  stopped (perform c m) = stopped m.
Proof.
  intros Hc. split_and!; by apply data_call_apart; [apply _|].
Qed.

Lemma offWork_keeps_keys value : keeps (fun m => JSMap.keys (workers m)) (offWork value).
Proof. unfold offWork, assert. repeat keeps_step. Qed.

Lemma stop_keeps_keys : keeps (fun m => JSMap.keys (workers m)) stop.
Proof. unfold stop. repeat first [apply offWork_keeps_keys | keeps_step]. Qed.

Lemma notifyWorker_keeps_keys workerId :
  keeps (fun m => JSMap.keys (workers m)) (notifyWorker workerId).
Proof. unfold notifyWorker. repeat keeps_step. Qed.

(** X20: only [work] adds a worker and only the callback [offWork] hands
    to [setImmediate] removes one: after every other call the registry has
    the keys it had, in the same order. *)
Theorem the_registry_keeps_its_keys (c : call) m :
  match c with call_work _ _ | tick_immediate _ => False | _ => True end ->
  JSMap.keys (workers (perform c m)) = JSMap.keys (workers m).
Proof.
  intros Hc.
  destruct (registry_call c) eqn:Hreg.
  - destruct c; try discriminate; try done; simpl.
    + apply offWork_keeps_keys.
    + apply notifyWorker_keeps_keys.
    + apply stop_keeps_keys.
  - by rewrite (data_call_apart workers c m Hreg).
Qed.


(** ** stop and the internal queues *)

Lemma for_of_invariant {A} (Inv : manager W -> Prop) (l : list A) body m :
  (forall x m0, Inv m0 -> Inv (body x m0).2) ->
  Inv m -> Inv (for_of l body m).2.
Proof.
  intros Hbody. revert m. induction l as [|x l IH]; intros m Hm; [done|].
  simpl. run. specialize (Hbody x m Hm).
  destruct (body x m) as [[[]|e] m1]; simpl in *; [by apply IH|done].
Qed.

Lemma JSMap_get_map_values {V} (g : V -> V) (P : V -> bool) (ws : JSMap.t V) k :
  JSMap.get (map (fun e => if P e.2 then (e.1, g e.2) else e) ws) k
  = (fun v => if P v then g v else v) <$> JSMap.get ws k.
Proof.
  unfold JSMap.get. induction ws as [|[k0 v0] ws IH]; [done|]. simpl.
  destruct (P v0) eqn:HP; simpl; destruct (String.eqb k0 k); simpl;
    rewrite ?HP; done.
Qed.

Lemma JSMap_keys_map_values {V} (g : V -> V) (P : V -> bool) (ws : JSMap.t V) :
  JSMap.keys (map (fun e => if P e.2 then (e.1, g e.2) else e) ws) = JSMap.keys ws.
Proof.
  unfold JSMap.keys. rewrite map_map. apply map_ext. intros e. by destruct (P e.2).
Qed.

Lemma offWork_spares_the_others m value key w :
  NoDup (JSMap.keys (workers m)) ->
  JSMap.get (workers m) key = Some w ->
  targets value w = false ->
  JSMap.get (workers (offWork value m).2) key = Some w.
Proof.
  intros Hnd Hget Hw.
  assert (Hcases : match value with inl s | inr s => s = "" end \/
                   match value with inl s | inr s => s <> "" end).
  { destruct value as [s|s]; destruct (decide (s = "")); auto. }
  destruct Hcases as [Hempty|Hvalue].
  - destruct value as [s|s]; subst s; exact Hget.
  - rewrite offWork_run by done. cbn [snd].
    destruct (List.filter _ _); [done|]. cbn [workers set_immediates set_workers].
    rewrite (JSMap_get_map_values Worker_stop (targets value)), Hget. simpl.
    by rewrite Hw.
Qed.

Lemma stop_run m :
  stop m
  = for_of (JSMap.keys (workers m)) (fun key =>
      m0 ← this;
      match JSMap.get (workers m0) key with
      | Some worker =>
          if negb (INTERNAL_QUEUES (worker_name worker))
          then offWork (inl (worker_name worker))
          else mret tt
      | None => mret tt
      end) (set_queueCacheInterval false (set_stopped true m)).
Proof. reflexivity. Qed.

(** X21: [stop] sets [stopped], clears the cache interval, and keeps the
    keys of the registry; a worker on an internal queue is left exactly as
    it was, so it is not asked to stop. *)
Theorem stop_spares_the_internal_queues m key w :
  NoDup (JSMap.keys (workers m)) ->
  JSMap.get (workers m) key = Some w ->
  INTERNAL_QUEUES (worker_name w) = true ->
  stopped (stop m).2 = true /\
  queueCacheInterval (stop m).2 = false /\
  JSMap.keys (workers (stop m).2) = JSMap.keys (workers m) /\
  JSMap.get (workers (stop m).2) key = Some w.
Proof.
  intros Hnd Hget Hinternal.
  split_and!; [apply stop_sets_stopped| |apply stop_keeps_keys|].
  - rewrite stop_run.
    apply (for_of_invariant (fun m0 => queueCacheInterval m0 = false)); [|done].
    intros k m0 Hm0. run.
    destruct (JSMap.get (workers m0) k) as [w0|]; [|done].
    destruct (INTERNAL_QUEUES (worker_name w0)); [done|]. cbn [negb].
    assert (Hk : keeps (@queueCacheInterval W) (offWork (inl (worker_name w0)))).
    { unfold offWork, assert. repeat keeps_step. }
    by rewrite Hk.
  - rewrite stop_run.
    apply (for_of_invariant
             (fun m0 => NoDup (JSMap.keys (workers m0)) /\
                        JSMap.get (workers m0) key = Some w)); [|done].
    intros k m0 [Hnd0 Hget0]. run.
    destruct (JSMap.get (workers m0) k) as [w0|]; [|done].
    destruct (INTERNAL_QUEUES (worker_name w0)) eqn:Hw0; [done|]. cbn [negb].
    split.
    + by rewrite (offWork_keeps_keys (inl (worker_name w0)) m0).
    + apply offWork_spares_the_others; [done..|].
      unfold targets. destruct (String.eqb_spec (worker_name w) (worker_name w0)) as [Heq|];
        [|done].
      rewrite Heq in Hinternal. congruence.
Qed.

(** ** failWip *)

(** X22: when no worker holds a job, [failWip] does nothing: no query is
    run and the manager is left as it was. *)
Theorem failWip_with_nothing_in_flight m :
  Forall (fun e => jobs e.2 = []) (workers m) ->
  failWip m = (Ok tt, m).
Proof.
  intros Hidle. unfold failWip. run.
  assert (Hloop : forall ks, for_of ks (fun key =>
      m0 ← this;
      match JSMap.get (workers m0) key with
      | Some worker =>
          let jobIds := map (fun j => VStr (id j)) (jobs worker) in
          if negb (Nat.eqb (length jobIds) 0)
          then _ ← fail (worker_name worker) (VArray jobIds)
                     (VStr "pg-boss shut down while active") None;
               mret tt
          else mret tt
      | None => mret tt
      end) m = (Ok tt, m)).
  { induction ks as [|k ks IH]; [done|]. simpl. run.
    destruct (JSMap.get (workers m) k) as [w0|] eqn:Hget; [|exact IH].
    apply JSMap_get_some_elem_of in Hget.
    rewrite Forall_forall in Hidle. specialize (Hidle _ Hget). simpl in Hidle.
    rewrite Hidle. exact IH. }
  apply Hloop.
Qed.

(** ** start and work *)

Lemma start_run m :
  (start m).1 = Ok tt /\ stopped (start m).2 = false /\
  queueCacheInterval (start m).2 = true /\
  workers (start m).2 = workers m /\ uuids_drawn (start m).2 = uuids_drawn m /\
  mgr_config (start m).2 = mgr_config m.
Proof.
  assert (Hstart : start m
    = detached onCacheQueues (set_queueCacheInterval true (set_stopped false m)))
    by reflexivity.
  assert (Hk : keeps (@queueCacheInterval W) (detached onCacheQueues)).
  { unfold onCacheQueues, getQueues. repeat keeps_step. }
  assert (Hok : forall m0, (detached onCacheQueues m0).1 = Ok tt).
  { intros m0. unfold detached. by destruct (onCacheQueues m0) as [[[]|e] m1]. }
  rewrite Hstart, Hok, Hk.
  rewrite (keeps_detached stopped _ untouched_unhandled (onCacheQueues_keeps stopped)),
    (keeps_detached workers _ apart_unhandled (onCacheQueues_apart workers)),
    (keeps_detached uuids_drawn _ apart_unhandled (onCacheQueues_apart uuids_drawn)),
    (keeps_detached mgr_config _ untouched_unhandled (onCacheQueues_keeps mgr_config)).
  done.
Qed.

Lemma work_run m name args options callback :
  stopped m = false ->
  checkWorkArgs name args (mgr_config m) = Ok (options, callback) ->
  let id := randomUUID_nth (uuids_drawn m) in
  let worker :=
    Worker_new id name options
      (default (pollingInterval (mgr_config m)) (work_pollingInterval options)) callback in
  exists m',
    work name args m = (Ok id, m') /\
    uuids_drawn m' = S (uuids_drawn m) /\
    JSMap.get (workers m') (worker_id worker) = Some (Worker_start worker) /\
    forall key, key <> worker_id worker ->
      JSMap.get (workers m') key = JSMap.get (workers m) key.
Proof.
  intros Hrun Hargs id worker. eexists. split_and!.
  - unfold work. run. unfold lift at 1. rewrite Hargs. unfold watch. run.
    rewrite Hrun. unfold randomUUID, addWorker, modify. run. reflexivity.
  - done.
  - cbn [workers set_workers]. rewrite JSMap_get_mutate, JSMap_get_set.
    fold id. fold worker. by rewrite String.eqb_refl.
  - intros key Hkey. cbn [workers set_workers].
    rewrite JSMap_get_mutate, JSMap_get_set. fold id. fold worker.
    by destruct (String.eqb_spec key (worker_id worker)).
Qed.

(** X23: on a manager that is not stopped, with arguments
    [checkWorkArgs] accepts, [work] returns a fresh id, draws one id, and
    registers the started worker, built from that id, the name, the options
    and the polling interval of the options or else of the configuration,
    under the worker's id; the entries under every other key are as they
    were. *)
Theorem work_registers_a_worker m name args options callback :
  stopped m = false ->
  checkWorkArgs name args (mgr_config m) = Ok (options, callback) ->
  let id := randomUUID_nth (uuids_drawn m) in
  let worker :=
    Worker_new id name options
      (default (pollingInterval (mgr_config m)) (work_pollingInterval options)) callback in
  exists m',
    work name args m = (Ok id, m') /\
    uuids_drawn m' = S (uuids_drawn m) /\
    JSMap.get (workers m') (worker_id worker) = Some (Worker_start worker) /\
    forall key, key <> worker_id worker ->
      JSMap.get (workers m') key = JSMap.get (workers m) key.
Proof. apply work_run. Qed.

(** X24: [start] after [stop] never throws and enables [work] again: on
    the stopped manager [work] throws "Workers are disabled. pg-boss is
    stopped", on the restarted one it returns the next id, [stop] and [start]
    having drawn none. *)
Theorem start_enables_work_again m name args options callback :
  checkWorkArgs name args (mgr_config m) = Ok (options, callback) ->
  (start (stop m).2).1 = Ok tt /\
  (work name args (stop m).2).1
  = Throw (Error "Workers are disabled. pg-boss is stopped") /\
  (work name args (start (stop m).2).2).1 = Ok (randomUUID_nth (uuids_drawn m)).
Proof.
  intros Hargs.
  assert (Hconfig : keeps (@mgr_config W) stop).
  { unfold stop, offWork, assert. repeat keeps_step. }
  assert (Huuid : keeps (@uuids_drawn W) stop).
  { unfold stop, offWork, assert. repeat keeps_step. }
  destruct (start_run (stop m).2) as (Hok & Hstopped & _ & _ & Huuids & Hconfig').
  split_and!; [done| |].
  - destruct (work_when_stopped (stop m).2 name args (stop_sets_stopped m))
      as (e & -> & He).
    simpl. f_equal. eapply He. by rewrite Hconfig.
  - destruct (work_run (start (stop m).2).2 name args options callback)
      as (m' & -> & _); [done|by rewrite Hconfig', Hconfig|].
    cbn [fst]. by rewrite Huuids, Huuid.
Qed.


(** ** The deferred removal *)

Lemma remove_loop_run (ws : list worker) m :
  for_of ws removeWorker m
  = (Ok tt,
     set_workers (fold_left (fun r w => JSMap.delete r (worker_id w)) ws (workers m)) m).
Proof.
  revert m. induction ws as [|w ws IH]; intros m; simpl.
  - by destruct m.
  - run. unfold removeWorker at 1, modify. run. by rewrite IH.
Qed.

Lemma JSMap_get_delete_many (ws : list worker) (r : JSMap.t worker) k :
  JSMap.get (fold_left (fun r w => JSMap.delete r (worker_id w)) ws r) k
  = if bool_decide (k ∈ map worker_id ws) then None else JSMap.get r k.
Proof.
  revert r. induction ws as [|w ws IH]; intros r; [done|].
  cbn [fold_left map]. rewrite IH, JSMap_get_delete.
  destruct (String.eqb_spec k (worker_id w)) as [->|Hne].
  - rewrite (bool_decide_eq_true_2 (_ ∈ _ :: _)) by left. by destruct (bool_decide _).
  - destruct (decide (k ∈ map worker_id ws)) as [Hin|Hnin].
    + rewrite !bool_decide_eq_true_2; [done|by right|done].
    + rewrite !bool_decide_eq_false_2; [done| |done].
      intros [?|?]%elem_of_cons; done.
Qed.

(** X25: a turn of the callback [offWork] handed to [setImmediate]
    removes nothing while one of the workers it waits for has not stopped.
    Once all have stopped it removes exactly those, by their ids, and
    finishes; the [stopped] flag, the other callbacks and the database are
    left as they were. *)
Theorem offWork_immediate_waits_for_all m keys :
  let waited := omap (JSMap.get (workers m)) keys in
  if forallb worker_stopped waited then
    exists m',
      offWork_immediate keys m = (Ok true, m') /\
      (forall k, JSMap.get (workers m') k
                 = if bool_decide (k ∈ map worker_id waited) then None
                   else JSMap.get (workers m) k) /\
      stopped m' = stopped m /\ immediates m' = immediates m /\ world m' = world m
  else offWork_immediate keys m = (Ok false, m).
Proof.
  intros waited. unfold offWork_immediate. run. fold waited.
  destruct (forallb worker_stopped waited); [|done].
  run. rewrite remove_loop_run. eexists. split; [done|].
  split_and!; try done.
  intros k. cbn [workers set_workers]. apply JSMap_get_delete_many.
Qed.

End MoreManagerFacts.

(** * More examples *)

Section MoreMigrationExamples.
Import JS Plans MigrationStore MigrationSpec MoreFixtures.

(** X1 at the chain 21, 20, 19: [next] from 20 goes to 21, and [rollback]
    from 21 comes back to 20. *)
Lemma rollback_undoes_next_witness :
  next "pgboss" 20 (Some three_migrations)
  = Ok (flatten "pgboss" (install a_migration_21) 21) /\
  rollback "pgboss" 21 (Some three_migrations)
  = Ok (flatten "pgboss" (default [] (uninstall a_migration_21)) 20).
Proof.
  split; [reflexivity|].
  destruct (rollback_undoes_next "pgboss" 20 three_migrations
              (flatten "pgboss" (install a_migration_21) 21))
    as (m & Hin & Hp & _ & Hback); [compute_done|reflexivity|].
  assert (Hm : m = a_migration_21).
  { vm_compute in Hin.
    repeat (apply elem_of_cons in Hin as [->|Hin]); [done|done|done|].
    by apply elem_of_nil in Hin. }
  subst m. exact Hback.
Defined.

(** X2 at the chain 21, 20, 19: [rollback] from 21 goes to 20, and [next]
    from 20 comes back to 21. *)
Lemma next_undoes_rollback_witness :
  rollback "pgboss" 21 (Some three_migrations)
  = Ok (flatten "pgboss" (default [] (uninstall a_migration_21)) 20) /\
  next "pgboss" 20 (Some three_migrations)
  = Ok (flatten "pgboss" (install a_migration_21) 21).
Proof.
  split; [reflexivity|].
  destruct (next_undoes_rollback "pgboss" 21 three_migrations
              (flatten "pgboss" (default [] (uninstall a_migration_21)) 20))
    as (m & Hin & Hv & _ & Hforth); [compute_done|reflexivity|].
  assert (Hm : m = a_migration_21).
  { vm_compute in Hin.
    repeat (apply elem_of_cons in Hin as [->|Hin]); [done|done|done|].
    by apply elem_of_nil in Hin. }
  subst m. exact Hforth.
Defined.

(** X4 at the chain 21, 20, 19 and the same chain reversed. *)
Lemma migrate_ignores_the_order_witness :
  migrate (inl "pgboss") 18 (Some three_migrations)
  = migrate (inl "pgboss") 18 (Some (reverse three_migrations)).
Proof.
  apply (migrate_ignores_the_order (inl "pgboss") 18 three_migrations
           (reverse three_migrations)).
  - symmetry. apply reverse_Permutation.
  - compute_done.
Defined.

(** X5 at the chain 21, 20, 19 from version 20, where only the migration to
    21 is selected. *)
Lemma migrate_of_one_hop_is_next_witness :
  migrate (inl "pgboss") 20 (Some three_migrations)
  = next "pgboss" 20 (Some three_migrations) /\
  next "pgboss" 20 (Some three_migrations)
  = Ok (flatten "pgboss" (install a_migration_21) 21).
Proof.
  apply (migrate_of_one_hop_is_next "pgboss" 20 three_migrations a_migration_21);
    [reflexivity|reflexivity|discriminate].
Defined.
End MoreMigrationExamples.

Section MoreManagerExamples.
Import JS Manager ManagerSpec RegistrySpec Fixture MoreFixtures.

(** X6 at an empty cache over a database that has the queue "q". *)
Lemma getQueueCache_caches_a_miss_witness :
  let m' := set_queues (Some {[ "q" := the_queue ]}) (set_world [a_lookup] uncached) in
  getQueueCache "q" uncached = (Ok (Row the_queue), m') /\
  getQueueCache "q" m' = (Ok (Row the_queue), m').
Proof.
  apply (getQueueCache_caches_a_miss uncached "q" ∅ the_queue [] [a_lookup]);
    [reflexivity|split_and!; [reflexivity..|compute_done]|reflexivity..].
Defined.

(** X7 at an empty cache over a database that has no queue. *)
Lemma getQueueCache_unknown_queue_witness :
  getQueueCache "q" queueless
  = (Throw (Error "Queue q does not exist"), set_world [a_lookup] queueless).
Proof.
  apply (getQueueCache_unknown_queue queueless "q" ∅ [a_lookup]);
    [reflexivity|split_and!; [reflexivity..|compute_done]|reflexivity..].
Defined.

(** X26 at the name "constructor" on an empty cache: the function [Object]
    is returned and nothing is looked up; a [send] to that name goes on to
    insert. *)
Lemma getQueueCache_inherited_name_witness :
  (exists v,
     getQueueCache "constructor" queueless = (Ok (Other v), queueless) /\
     truthy v = true /\ table_of (Other v) = VUndefined) /\
  getQueueCache "constructor" queueless = (Ok (Other (VFunction "Object")), queueless) /\
  (send ("constructor", VNum 1, None) queueless).1 = Ok (Some "job-0").
Proof.
  split; [|split; reflexivity].
  apply (getQueueCache_inherited_name queueless "constructor" ∅);
    [reflexivity..|compute_done].
Defined.

(** X8 at an empty cache over a database that has no queue: the ledger
    holds the lookup and no insert. *)
Lemma send_to_an_unknown_queue_witness :
  send ("q", VNum 1, None) queueless
  = (Throw (Error "Queue q does not exist"), set_world [a_lookup] queueless).
Proof.
  apply (send_to_an_unknown_queue queueless ("q", VNum 1, None) "q" (VNum 1)
           (@no_options ledger) ∅ [a_lookup]);
    [reflexivity..|split_and!; [reflexivity..|compute_done]|reflexivity|reflexivity].
Defined.

(** X9 at a database that cannot be reached: without a listener for
    "error" the refresh throws, with one it does not. *)
Lemma onCacheQueues_reports_a_failure_witness :
  onCacheQueues unreachable
  = (Throw (ERR_UNHANDLED_ERROR (Error "connection refused")),
     set_emitted [error_event (Error "connection refused") None None]
       (set_world [a_lookup] unreachable)) /\
  onCacheQueues (listening an_error_listener unreachable)
  = (Ok tt,
     set_emitted [error_event (Error "connection refused") None None]
       (set_world [a_lookup] (listening an_error_listener unreachable))).
Proof.
  split.
  - apply (proj2 (onCacheQueues_reports_a_failure unreachable)
             (Error "connection refused") [a_lookup] eq_refl).
    reflexivity.
  - apply (proj2 (onCacheQueues_reports_a_failure (listening an_error_listener unreachable))
             (Error "connection refused") [a_lookup] eq_refl);
      [discriminate|repeat constructor].
Defined.

(** X14 at a manager whose last emission is 3250 ms old: with "wip"
    listeners the second of which throws, [emitWip] throws its error and
    the time of the last emission stays; for an internal queue nothing is
    emitted. *)
Lemma emitWip_is_throttled_witness :
  emitWip "q" (listening a_failing_wip_listener healthy)
  = (Throw (Error "listener"),
     set_emitted [wip_event []] (listening a_failing_wip_listener healthy)) /\
  emitWip "q" healthy = (Ok tt, set_wipTs 1700000003250 (set_emitted [wip_event []] healthy)) /\
  emitWip "__pgboss__cron" healthy = (Ok tt, healthy).
Proof.
  split_and!.
  - assert (Hname : INTERNAL_QUEUES "q" = false) by reflexivity.
    assert (Hlate : 2000 < clock (listening a_failing_wip_listener healthy)
                           - wipTs (listening a_failing_wip_listener healthy))
      by reflexivity.
    destruct (proj1 (proj2 (emitWip_is_throttled (listening a_failing_wip_listener healthy)
                              "q")) Hname Hlate) as (data & _ & Hrun).
    assert (Hdata : data = []).
    { pose proof Hrun as Hrun'. vm_compute in Hrun'. by injection Hrun'. }
    subst data. exact Hrun.
  - reflexivity.
  - apply (proj1 (emitWip_is_throttled healthy "__pgboss__cron")). by left.
Defined.

(** X10 at the names "q", the empty name and "r": the ledger stays
    empty. *)
Lemma getQueues_validates_first_witness :
  getQueues (Some ["q"; ""; "r"]) healthy
  = (Throw (VError "AssertionError" "Name must be a string"), healthy).
Proof.
  apply (getQueues_validates_first healthy ["q"] "" ["r"]
           (VError "AssertionError" "Name must be a string")).
  - repeat constructor.
  - reflexivity.
Defined.

(** X12 at the number 7: the output sent is [{ value: 7 }]. *)
Lemma fail_stores_output_witness :
  fail "q" (VStr "job-0") (VNum 7) None healthy
  = (Ok {| response_jobs := [VStr "job-0"]; requested := 1; affected := 1 |},
     set_world [a_report "failJobsById" ["job-0"] (VObject [("value", VNum 7)])] healthy).
Proof.
  rewrite (fail_stores_output healthy "q" (VStr "job-0") (VNum 7) None
             [VStr "job-0"] {[ "q" := the_queue ]} the_queue);
    reflexivity.
Defined.

(** X13 at the empty array. *)
Lemma complete_and_fail_need_an_id_witness :
  complete "q" (VArray []) (VNum 7) None healthy
  = (Throw (VError "AssertionError" "complete() requires an id"), healthy) /\
  fail "q" (VArray []) (VNum 7) None healthy
  = (Throw (VError "AssertionError" "fail() requires an id"), healthy).
Proof.
  apply (complete_and_fail_need_an_id healthy "q" (VArray []) (VNum 7) None);
    [reflexivity|by right].
Defined.


(** X17 at a handler that throws, over a database that cannot be reached:
    the failure is reported, and the error of the report is not thrown but
    left unhandled. *)
Lemma onFetch_does_not_throw_witness :
  (onFetch "q" throws_boom [a_job 5] unreachable_cached).1 = Ok tt /\
  world (onFetch "q" throws_boom [a_job 5] unreachable_cached).2
  = [a_report "failJobsById" ["job-0"] (Error "boom")] /\
  unhandled (onFetch "q" throws_boom [a_job 5] unreachable_cached).2
  = [Error "connection refused"].
Proof.
  split; [|split; reflexivity].
  apply (onFetch_does_not_throw unreachable_cached "q" throws_boom [a_job 5]);
    [reflexivity|intros data; constructor].
Defined.

(** X18 at workers on "q" and "r": [offWork "q"] stops the first and waits
    for it. *)
Lemma offWork_stops_its_targets_witness :
  offWork (inl "q") two_workers
  = (Ok tt,
     set_immediates [["uuid-0"]]
       (set_workers
          (map (fun e => if targets (inl "q") e.2 then (e.1, Worker_stop e.2) else e)
             (workers two_workers)) two_workers)).
Proof.
  apply (offWork_stops_its_targets two_workers (inl "q")); [done|compute_done].
Defined.

(** X19 at a [send] on a manager with two workers. *)
Lemma data_calls_leave_the_registry_alone_witness :
  workers (perform (call_send ("q", VNum 1, None)) two_workers) = workers two_workers /\
  immediates (perform (call_send ("q", VNum 1, None)) two_workers) = immediates two_workers /\
  uuids_drawn (perform (call_send ("q", VNum 1, None)) two_workers) = uuids_drawn two_workers /\
  stopped (perform (call_send ("q", VNum 1, None)) two_workers) = stopped two_workers.
Proof.
  apply (data_calls_leave_the_registry_alone (call_send ("q", VNum 1, None)) two_workers).
  reflexivity.
Defined.

(** X20 at [stop] on a manager with two workers. *)
Lemma the_registry_keeps_its_keys_witness :
  JSMap.keys (workers (perform call_stop two_workers)) = ["uuid-0"; "uuid-1"].
Proof.
  rewrite (the_registry_keeps_its_keys call_stop two_workers I). reflexivity.
Defined.

(** X21 at workers on "q" and on an internal queue: after [stop] the
    second is as [work] left it. *)
Lemma stop_spares_the_internal_queues_witness :
  let w := Worker_start
             (Worker_new "uuid-1" "__pgboss__cron" no_workOptions 2000 never_settles) in
  stopped (stop with_an_internal_worker).2 = true /\
  queueCacheInterval (stop with_an_internal_worker).2 = false /\
  JSMap.keys (workers (stop with_an_internal_worker).2)
  = JSMap.keys (workers with_an_internal_worker) /\
  JSMap.get (workers (stop with_an_internal_worker).2) "uuid-1" = Some w.
Proof.
  apply (stop_spares_the_internal_queues with_an_internal_worker "uuid-1");
    [compute_done|reflexivity|reflexivity].
Defined.

(** X22 at two workers that have fetched nothing. *)
Lemma failWip_with_nothing_in_flight_witness :
  failWip two_workers = (Ok tt, two_workers).
Proof.
  apply (failWip_with_nothing_in_flight two_workers). repeat constructor.
Defined.

(** X23 at the first worker of a manager. *)
Lemma work_registers_a_worker_witness :
  (work "q" (None, Some never_settles) healthy).1 = Ok "uuid-0" /\
  JSMap.get (workers (work "q" (None, Some never_settles) healthy).2) "uuid-0"
  = Some (Worker_start (Worker_new "uuid-0" "q" no_workOptions 2000 never_settles)).
Proof.
  destruct (work_registers_a_worker healthy "q" (None, Some never_settles)
              no_workOptions never_settles) as (m' & Hrun & _ & Hget & _);
    [reflexivity|reflexivity|].
  rewrite Hrun. split; [reflexivity|exact Hget].
Defined.

(** X24 at a manager that is stopped and started again. *)
Lemma start_enables_work_again_witness :
  (start (stop healthy).2).1 = Ok tt /\
  (work "q" (None, Some never_settles) (stop healthy).2).1
  = Throw (Error "Workers are disabled. pg-boss is stopped") /\
  (work "q" (None, Some never_settles) (start (stop healthy).2).2).1 = Ok "uuid-0".
Proof.
  destruct (start_enables_work_again healthy "q" (None, Some never_settles)
              no_workOptions never_settles) as (Hstart & Hoff & Hon); [reflexivity|].
  rewrite Hstart, Hoff, Hon. split_and!; reflexivity.
Defined.

End MoreManagerExamples.
